(** * Universal Blog Theme (js/main.js): a shallow embedding and its properties

    The client-side rendering layer of the blog is embedded function by
    function.  JavaScript strings are Rocq strings, one character per UTF-16
    code unit (code units below 256); JavaScript numbers that hold page
    numbers, indices and lengths are integers of [Z]; a value that may be
    [undefined] is an [option].  HTML is kept as the text the source builds. *)

From Stdlib Require Import ZArith Ascii String DecimalString Lia.
From stdpp Require Import base tactics option list strings.

Local Open Scope string_scope.
Local Open Scope list_scope.
Local Open Scope Z_scope.

(** ** JavaScript string primitives used by the theme *)
Module Js.

(** The double quote character, U+0022. *)
Definition dquote : ascii := ascii_of_nat 34.

(** Template text of the source is written with a backtick wherever the
    source has a double quote (a backtick cannot occur inside a template
    literal); [lit] turns the backticks into double quotes. *)
Fixpoint lit (s : string) : string :=
  match s with
  | EmptyString => EmptyString
  | String c s' => String (if Ascii.eqb c "`" then dquote else c) (lit s')
  end.

(** [s.length] *)
Definition length (s : string) : Z := Z.of_nat (String.length s).

(** [String(n)] for an integer [n], as template interpolation prints it. *)
Definition ofZ (n : Z) : string := NilZero.string_of_int (Z.to_int n).

(** [${v}] for a string that may be undefined. *)
Definition interp (v : option string) : string :=
  match v with
  | Some s => s
  | None => "undefined"
  end.

(** Truthiness of a string that may be undefined: the empty string and
    [undefined] are falsy. *)
Definition truthy (v : option string) : bool :=
  match v with
  | Some (String _ _) => true
  | _ => false
  end.

(** [v || d] *)
Definition orElse (v : option string) (d : string) : string :=
  match v with
  | Some (String c s) => String c s
  | _ => d
  end.

Definition clamp (lo hi x : Z) : Z := Z.max lo (Z.min x hi).

(** [s.substring(start, end)]: both bounds are clamped to [0, s.length] and
    swapped when out of order. *)
Definition substring (s : string) (start end_ : Z) : string :=
  let len := length s in
  let a := clamp 0 len start in
  let b := clamp 0 len end_ in
  let from := Z.min a b in
  let to := Z.max a b in
  String.substring (Z.to_nat from) (Z.to_nat (to - from)) s.

(** White space and line terminators of ECMAScript among the code units
    below 256: TAB, LF, VT, FF, CR, SP and NBSP. *)
Definition isWhiteSpace (c : ascii) : bool :=
  let n := nat_of_ascii c in
  ((9 <=? n)%nat && (n <=? 13)%nat) || (n =? 32)%nat || (n =? 160)%nat.

Fixpoint trimStart (s : string) : string :=
  match s with
  | String c s' => if isWhiteSpace c then trimStart s' else s
  | EmptyString => EmptyString
  end.

Fixpoint trimEnd (s : string) : string :=
  match s with
  | EmptyString => EmptyString
  | String c s' =>
      match trimEnd s' with
      | EmptyString => if isWhiteSpace c then EmptyString else String c EmptyString
      | r => String c r
      end
  end.

(** [s.trim()] strips white space at both ends. *)
Definition trim (s : string) : string := trimEnd (trimStart s).

(** [s.includes(sub)] *)
Fixpoint includes (s sub : string) : bool :=
  String.prefix sub s ||
  match s with
  | EmptyString => false
  | String _ s' => includes s' sub
  end.

(** [l.slice(start, end)]: a negative bound counts from the end, and both
    are clamped to [0, l.length]. *)
Definition slice {A} (l : list A) (start end_ : Z) : list A :=
  let len := Z.of_nat (List.length l) in
  let k := if start <? 0 then Z.max (len + start) 0 else Z.min start len in
  let final := if end_ <? 0 then Z.max (len + end_) 0 else Z.min end_ len in
  take (Z.to_nat (final - k)) (drop (Z.to_nat k) l).

(** [Math.ceil(a / b)] for integers [a] and [b > 0]. *)
Definition ceilDiv (a b : Z) : Z := - ((- a) / b).

(** [list.join('')] *)
Definition join (l : list string) : string := String.concat "" l.

(** [[...new Set(l)]]: the distinct values in order of first occurrence. *)
Fixpoint uniqFrom (seen l : list string) : list string :=
  match l with
  | [] => []
  | x :: l' =>
      if existsb (String.eqb x) seen then uniqFrom seen l'
      else x :: uniqFrom (x :: seen) l'
  end.
Definition uniq (l : list string) : list string := uniqFrom [] l.

(** [list.forEach((x, index) => ...)] that accumulates into a local
    variable of the enclosing function. *)
Fixpoint forEachIndexed {A S} (body : S -> A -> Z -> S) (l : list A)
    (index : Z) (acc : S) : S :=
  match l with
  | [] => acc
  | x :: l' => forEachIndexed body l' (index + 1) (body acc x index)
  end.

(** [classList.remove(token)] and [classList.add(token)] *)
Definition classRemove (token : string) (cl : list string) : list string :=
  List.filter (fun t => negb (String.eqb t token)) cl.
Definition classAdd (token : string) (cl : list string) : list string :=
  if existsb (String.eqb token) cl then cl else cl ++ [token].

(** [s.toLowerCase()] on the code units below 256: the letters A to Z and
    the capital letters of U+00C0 to U+00DE (U+00D7 is the times sign). *)
Definition lowerChar (c : ascii) : ascii :=
  let n := nat_of_ascii c in
  if (((65 <=? n) && (n <=? 90)) ||
      ((192 <=? n) && (n <=? 222) && negb (n =? 215)))%nat
  then ascii_of_nat (n + 32) else c.

Fixpoint toLowerCase (s : string) : string :=
  match s with
  | EmptyString => EmptyString
  | String c s' => String (lowerChar c) (toLowerCase s')
  end.

End Js.

(** ** Configuration (CONFIG) *)
Record Config := {
  indexPath : string;
  dataPath : string;
  postsPerPage : Z;
  excerptLength : Z
}.

(** [CONFIG], from [window.location.pathname]. *)
Definition CONFIG (pathname : string) : Config := {|
  indexPath := if Js.includes pathname "/posts/"
               then "../data/posts-index.json" else "data/posts-index.json";
  dataPath := if Js.includes pathname "/posts/"
              then "../data/posts.json" else "data/posts.json";
  postsPerPage := 8;
  excerptLength := 150
|}.

(** ** Utility functions *)

(** [truncateText(text, maxLength)] *)
Definition truncateText (text : option string) (maxLength : Z) : option string :=
  match text with
  | None => None
  | Some t =>
      if negb (Js.truthy text) || (Js.length t <=? maxLength) then text
      else Some (Js.trim (Js.substring t 0 maxLength) +:+ "...")
  end.

(** Serialization of a text node ([div.textContent = text; div.innerHTML]):
    the HTML fragment serialization algorithm escapes the ampersand, the
    no-break space and the two angle brackets of character data. *)
Fixpoint serializeText (s : string) : string :=
  match s with
  | EmptyString => EmptyString
  | String c s' =>
      (if Ascii.eqb c "&" then "&amp;"
       else if Ascii.eqb c (ascii_of_nat 160) then "&nbsp;"
       else if Ascii.eqb c "<" then "&lt;"
       else if Ascii.eqb c ">" then "&gt;"
       else String c EmptyString) +:+ serializeText s'
  end.

(** [escapeHtml(text)] *)
Definition escapeHtml (text : option string) : string :=
  match text with
  | Some (String c s) => serializeText (String c s)
  | _ => ""
  end.

(** ** Data model *)

(** [post.content] *)
Record Content := {
  paragraphs : option (list string);
  ingredients : option (list string);
  steps : option (list string)
}.

(** A post record of the JSON dataset; [image] and [content] are optional. *)
Record Post := {
  slug : string;
  title : string;
  category : string;
  date : string;
  excerpt : string;
  image : option string;
  content : option Content
}.

(** What [response.json()] yields. *)
Inductive JsonData :=
| JsonNull
| JsonObject (posts : option (list Post)).

Inductive BodyOutcome :=
| JsonRejects (message : string)
| JsonResolves (data : JsonData).

(** What [await fetch(path)] yields. *)
Inductive FetchOutcome :=
| FetchRejects (message : string)
| FetchResponse (ok : bool) (status : Z) (body : BodyOutcome).

(** What the page and the browser supply: the location, the network, the
    [Date] object, the engine's TypeError text for a property read on
    undefined or null, [Array.prototype.sort] under the date comparator of
    the sidebar, whether a [.post-body] element is present,
    [window.preloadedPost] and the [slug] query parameter. *)
Record Env := {
  pathname : string;
  fetch : string -> FetchOutcome;
  getDate : string -> option Z;
  monthShort : string -> string;
  typeErrorMessage : string -> string;
  sortNewestFirst : list Post -> list Post;
  postBodyPresent : bool;
  preloadedPost : option Post;
  slugParam : option string
}.

(** A DOM child: markup assigned through [innerHTML], or an element made by
    [createElement] and appended. *)
Inductive Node :=
| Html (markup : string)
| Elem (tag className inner : string).

(** [el.innerHTML = markup] as the children it leaves. *)
Definition innerHTML (markup : string) : list Node :=
  match markup with
  | EmptyString => []
  | _ => [Html markup]
  end.

(** The page-lifetime globals of the script and the DOM anchors it touches.
    A container that the page lacks is [None]; [slides] and [dots] are the
    class lists of the elements matched by [.carousel-slide] and
    [.carousel-dot]. *)
Record World := {
  postsData : list Post;
  currentPost : option Post;
  currentPage : Z;
  currentSlide : Z;
  slides : list (list string);
  dots : list (list string);
  postsGrid : option (list Node);
  postContent : option (list Node);
  pagination : option (list Node);
  postsSection : bool;
  relatedPosts : option string;
  relatedPostsGrid : option (list Node);
  categoryList : option (list Node);
  recentPosts : option (list Node)
}.

Definition set_postsData (v : list Post) (w : World) : World :=
  {| postsData := v; currentPost := currentPost w; currentPage := currentPage w;
     currentSlide := currentSlide w; slides := slides w; dots := dots w;
     postsGrid := postsGrid w; postContent := postContent w;
     pagination := pagination w; postsSection := postsSection w;
     relatedPosts := relatedPosts w; relatedPostsGrid := relatedPostsGrid w;
     categoryList := categoryList w; recentPosts := recentPosts w |}.

Definition set_currentPost (v : option Post) (w : World) : World :=
  {| postsData := postsData w; currentPost := v; currentPage := currentPage w;
     currentSlide := currentSlide w; slides := slides w; dots := dots w;
     postsGrid := postsGrid w; postContent := postContent w;
     pagination := pagination w; postsSection := postsSection w;
     relatedPosts := relatedPosts w; relatedPostsGrid := relatedPostsGrid w;
     categoryList := categoryList w; recentPosts := recentPosts w |}.

Definition set_currentPage (v : Z) (w : World) : World :=
  {| postsData := postsData w; currentPost := currentPost w; currentPage := v;
     currentSlide := currentSlide w; slides := slides w; dots := dots w;
     postsGrid := postsGrid w; postContent := postContent w;
     pagination := pagination w; postsSection := postsSection w;
     relatedPosts := relatedPosts w; relatedPostsGrid := relatedPostsGrid w;
     categoryList := categoryList w; recentPosts := recentPosts w |}.

Definition set_carousel (cur : Z) (ss ds : list (list string)) (w : World) : World :=
  {| postsData := postsData w; currentPost := currentPost w; currentPage := currentPage w;
     currentSlide := cur; slides := ss; dots := ds;
     postsGrid := postsGrid w; postContent := postContent w;
     pagination := pagination w; postsSection := postsSection w;
     relatedPosts := relatedPosts w; relatedPostsGrid := relatedPostsGrid w;
     categoryList := categoryList w; recentPosts := recentPosts w |}.

Definition set_postsGrid (v : option (list Node)) (w : World) : World :=
  {| postsData := postsData w; currentPost := currentPost w; currentPage := currentPage w;
     currentSlide := currentSlide w; slides := slides w; dots := dots w;
     postsGrid := v; postContent := postContent w;
     pagination := pagination w; postsSection := postsSection w;
     relatedPosts := relatedPosts w; relatedPostsGrid := relatedPostsGrid w;
     categoryList := categoryList w; recentPosts := recentPosts w |}.

Definition set_postContent (v : option (list Node)) (w : World) : World :=
  {| postsData := postsData w; currentPost := currentPost w; currentPage := currentPage w;
     currentSlide := currentSlide w; slides := slides w; dots := dots w;
     postsGrid := postsGrid w; postContent := v;
     pagination := pagination w; postsSection := postsSection w;
     relatedPosts := relatedPosts w; relatedPostsGrid := relatedPostsGrid w;
     categoryList := categoryList w; recentPosts := recentPosts w |}.

Definition set_pagination (v : option (list Node)) (w : World) : World :=
  {| postsData := postsData w; currentPost := currentPost w; currentPage := currentPage w;
     currentSlide := currentSlide w; slides := slides w; dots := dots w;
     postsGrid := postsGrid w; postContent := postContent w;
     pagination := v; postsSection := postsSection w;
     relatedPosts := relatedPosts w; relatedPostsGrid := relatedPostsGrid w;
     categoryList := categoryList w; recentPosts := recentPosts w |}.

Definition set_related (d : option string) (g : option (list Node)) (w : World) : World :=
  {| postsData := postsData w; currentPost := currentPost w; currentPage := currentPage w;
     currentSlide := currentSlide w; slides := slides w; dots := dots w;
     postsGrid := postsGrid w; postContent := postContent w;
     pagination := pagination w; postsSection := postsSection w;
     relatedPosts := d; relatedPostsGrid := g;
     categoryList := categoryList w; recentPosts := recentPosts w |}.

Definition set_categoryList (v : option (list Node)) (w : World) : World :=
  {| postsData := postsData w; currentPost := currentPost w; currentPage := currentPage w;
     currentSlide := currentSlide w; slides := slides w; dots := dots w;
     postsGrid := postsGrid w; postContent := postContent w;
     pagination := pagination w; postsSection := postsSection w;
     relatedPosts := relatedPosts w; relatedPostsGrid := relatedPostsGrid w;
     categoryList := v; recentPosts := recentPosts w |}.

Definition set_recentPosts (v : option (list Node)) (w : World) : World :=
  {| postsData := postsData w; currentPost := currentPost w; currentPage := currentPage w;
     currentSlide := currentSlide w; slides := slides w; dots := dots w;
     postsGrid := postsGrid w; postContent := postContent w;
     pagination := pagination w; postsSection := postsSection w;
     relatedPosts := relatedPosts w; relatedPostsGrid := relatedPostsGrid w;
     categoryList := categoryList w; recentPosts := v |}.

(** ** Statements that read and write the world and may throw *)

Inductive Res (A : Type) :=
| Ok (a : A)
| Throw (message : string).
Arguments Ok {A} a.
Arguments Throw {A} message.

Definition M (A : Type) : Type := World -> Res A * World.

Definition ret {A} (a : A) : M A := fun w => (Ok a, w).
Definition throw {A} (message : string) : M A := fun w => (Throw message, w).
Definition bind {A B} (m : M A) (k : A -> M B) : M B :=
  fun w =>
    match m w with
    | (Ok a, w') => k a w'
    | (Throw e, w') => (Throw e, w')
    end.
Definition get : M World := fun w => (Ok w, w).
Definition modify (f : World -> World) : M unit := fun w => (Ok tt, f w).

(** [try { body } catch (error) { handler(error.message) }]: what the body
    wrote before it threw stays written. *)
Definition tryCatch {A} (body : M A) (handler : string -> M A) : M A :=
  fun w =>
    match body w with
    | (Ok a, w') => (Ok a, w')
    | (Throw e, w') => handler e w'
    end.

Notation "'let*' x := m 'in' k" := (bind m (fun x => k))
  (at level 10, x name, m at level 100, k at level 200).
Notation "m ;;; k" := (bind m (fun _ => k))
  (at level 100, k at level 200, right associativity).

(** [list.forEach(x => body(x))] *)
Fixpoint forEach {A} (l : list A) (body : A -> M unit) : M unit :=
  match l with
  | [] => ret tt
  | x :: l' => body x ;;; forEach l' body
  end.

(** ** Utility functions that read the environment *)
Section Theme.
Context (env : Env).

Definition cfg : Config := CONFIG (pathname env).

(** [formatDate(dateString)]: day of the month, a dash, the short month
    name; [getDate] is [None] where JavaScript has NaN. *)
Definition formatDate (dateString : string) : string :=
  if negb (Js.truthy (Some dateString)) then ""
  else
    let day := match getDate env dateString with
               | Some d => Js.ofZ d
               | None => "NaN"
               end in
    let month := monthShort env dateString in
    day +:+ "-" +:+ month.

(** [getLinkPath(type, slugOrCat)] *)
Definition getLinkPath (type slugOrCat : string) : string :=
  let isPostPage := Js.includes (pathname env) "/posts/" in
  if String.eqb type "home" then
    if isPostPage then "../index.html" else "index.html"
  else if String.eqb type "post" then
    if isPostPage then slugOrCat +:+ ".html" else "posts/" +:+ slugOrCat +:+ ".html"
  else if String.eqb type "category" then
    let base := if isPostPage then "../index.html" else "index.html" in
    base +:+ "#" +:+ Js.toLowerCase slugOrCat
  else "#".

(** The markup [showError] writes. *)
Definition errorMarkup (message : string) : string :=
  Js.lit "
                <div class=`loading` style=`color: #ef4444;`>
                    " +:+
    escapeHtml (Some message) +:+
    Js.lit "
                </div>
            ".

(** [showError(message)]: both anchors, where present, get the message. *)
Definition showError (message : string) : M unit :=
  let* w := get in
  (match postsGrid w with
   | Some _ => modify (set_postsGrid (Some (innerHTML (errorMarkup message))))
   | None => ret tt
   end) ;;;
  (match postContent w with
   | Some _ => modify (set_postContent (Some (innerHTML (errorMarkup message))))
   | None => ret tt
   end).

(** ** Data loading *)

(** The block [loadPostsData] writes into the grid when loading fails. *)
Definition loadErrorMarkup (message : string) : string :=
  Js.lit "
                <div style=`grid-column: 1/-1; text-align: center; padding: 40px;`>
                    <h3>Unable to load posts</h3>
                    <p>Error: " +:+
    message +:+
    Js.lit "</p>
                    <p>Path: " +:+
    dataPath cfg +:+
    Js.lit "</p>
                    <p>Please check browser console for details.</p>
                </div>
            ".

(** [loadPostsData()]; console output is not modelled. *)
Definition loadPostsData : M (list Post) :=
  tryCatch
    (match fetch env (dataPath cfg) with
     | FetchRejects e => throw e
     | FetchResponse ok status body =>
         if negb ok then throw ("HTTP error! status: " +:+ Js.ofZ status)
         else
           match body with
           | JsonRejects e => throw e
           | JsonResolves JsonNull => throw (typeErrorMessage env "posts")
           | JsonResolves (JsonObject posts) =>
               modify (set_postsData (default [] posts)) ;;;
               let* w := get in
               ret (postsData w)
           end
     end)
    (fun message =>
       let* w := get in
       (match postsGrid w with
        | Some _ => modify (set_postsGrid (Some (innerHTML (loadErrorMarkup message))))
        | None => ret tt
        end) ;;;
       ret []).

(** [loadPostsIndex()]: the log line reads [data.count] first, which throws
    on a null payload. *)
Definition loadPostsIndex : M (list Post) :=
  tryCatch
    (match fetch env (indexPath cfg) with
     | FetchRejects e => throw e
     | FetchResponse ok status body =>
         if negb ok then loadPostsData
         else
           match body with
           | JsonRejects e => throw e
           | JsonResolves JsonNull => throw (typeErrorMessage env "count")
           | JsonResolves (JsonObject posts) =>
               modify (set_postsData (default [] posts)) ;;;
               let* w := get in
               ret (postsData w)
           end
     end)
    (fun _ => loadPostsData).

(** ** Hero carousel *)

(** The slide markup of [renderHeroCarousel], the callback of
    [carouselPosts.map((post, index) => ...)]. *)
Definition carouselSlide (post : Post) (index : Z) : string :=
  Js.lit "
        <div class=`carousel-slide " +:+
    (if index =? 0 then "active" else "") +:+
    Js.lit "` data-index=`" +:+
    Js.ofZ index +:+
    Js.lit "` data-slug=`" +:+
    slug post +:+
    Js.lit "`>
            <div class=`carousel-image-wrapper`>
                <img src=`" +:+
    Js.orElse (image post) "https://via.placeholder.com/1200x600?text=No+Image" +:+
    Js.lit "` 
                     alt=`" +:+
    escapeHtml (Some (title post)) +:+
    Js.lit "` 
                     class=`carousel-image`
                     onerror=`this.src='https://via.placeholder.com/1200x600?text=No+Image'`>
                <div class=`carousel-overlay`></div>
            </div>
            <div class=`carousel-content`>
                <h2 class=`carousel-title`>" +:+
    escapeHtml (Some (title post)) +:+
    Js.lit "</h2>

                <p class=`carousel-excerpt`>" +:+
    Js.substring (escapeHtml (Some (Js.orElse (Some (excerpt post)) ""))) 0 150 +:+
    Js.lit "...</p>
                <a href=`posts/" +:+
    slug post +:+
    Js.lit ".html` class=`carousel-btn-read` onclick=`event.stopPropagation()`>
                    Read Article
                    <svg width=`20` height=`20` viewBox=`0 0 24 24` fill=`none` stroke=`currentColor` stroke-width=`2`>
                        <line x1=`5` y1=`12` x2=`19` y2=`12`></line>
                        <polyline points=`12 5 19 12 12 19`></polyline>
                    </svg>
                </a>
            </div>
        </div>
    ".

(** [goToSlide(index)] for an integer [index]. *)
Definition goToSlide (index : Z) : M unit :=
  let* w := get in
  let slides_ := slides w in
  let dots_ := dots w in
  if Z.of_nat (length slides_) =? 0 then ret tt
  else
    let index := if index <? 0 then Z.of_nat (length slides_) - 1 else index in
    let index := if index >=? Z.of_nat (length slides_) then 0 else index in
    let slides_ := map (Js.classRemove "active") slides_ in
    let dots_ := map (Js.classRemove "active") dots_ in
    match slides_ !! Z.to_nat index with
    | None => throw (typeErrorMessage env "classList")
    | Some _ =>
        let slides_ := alter (Js.classAdd "active") (Z.to_nat index) slides_ in
        let dots_ :=
          match dots_ !! Z.to_nat index with
          | Some _ => alter (Js.classAdd "active") (Z.to_nat index) dots_
          | None => dots_
          end in
        modify (set_carousel index slides_ dots_)
    end.

(** ** Homepage grid *)

(** [createPostCard(post)] *)
Definition createPostCard (post : Post) : Node :=
  let imageHtml :=
    if Js.truthy (image post) then
      Js.lit "<div class=`post-card-image`>
               <img src=`" +:+
      escapeHtml (image post) +:+
      Js.lit "` alt=`" +:+
      escapeHtml (Some (title post)) +:+
      Js.lit "` loading=`lazy`>
           </div>"
    else "" in
  let excerpt_ := truncateText (Some (excerpt post)) (excerptLength cfg) in
  let postUrl := getLinkPath "post" (slug post) in
  Elem "article" "post-card"
    (Js.lit "
        " +:+
     imageHtml +:+
     Js.lit "
        <div class=`post-card-content`>
            <div class=`post-meta`>
                <span class=`post-category`>" +:+
     escapeHtml (Some (category post)) +:+
     Js.lit "</span>
                <span class=`post-date`>" +:+
     formatDate (date post) +:+
     Js.lit "</span>
            </div>
            <h2 class=`post-card-title`>
                <a href=`" +:+
     postUrl +:+
     Js.lit "`>" +:+
     escapeHtml (Some (title post)) +:+
     Js.lit "</a>
            </h2>
            <p class=`post-card-excerpt`>" +:+
     escapeHtml excerpt_ +:+
     Js.lit "</p>
            <a href=`" +:+
     postUrl +:+
     Js.lit "` class=`read-more`>Read More</a>
        </div>
    ").

(** [renderPostsGrid(posts)] *)
Definition renderPostsGrid (posts : list Post) : M unit :=
  let* w := get in
  match postsGrid w with
  | None => ret tt
  | Some _ =>
      modify (set_postsGrid (Some (innerHTML ""))) ;;;
      forEach posts (fun post =>
        let card := createPostCard post in
        modify (fun w => set_postsGrid (option_map (fun c => c ++ [card]) (postsGrid w)) w))
  end.

(** ** Sidebar *)

(** [renderCategories(posts)] *)
Definition renderCategories (posts : list Post) : M unit :=
  let* w := get in
  match categoryList w with
  | None => ret tt
  | Some _ =>
      let categories := Js.uniq (map category posts) in
      modify (set_categoryList (Some (innerHTML ""))) ;;;
      forEach categories (fun category_ =>
        let count := Z.of_nat (length (List.filter (fun p => String.eqb (category p) category_) posts)) in
        let catUrl := getLinkPath "category" category_ in
        let li := Elem "li" ""
          (Js.lit "<a href=`" +:+
           catUrl +:+
           Js.lit "`>" +:+
           escapeHtml (Some category_) +:+
           Js.lit " (" +:+
           Js.ofZ count +:+
           Js.lit ")</a>") in
        modify (fun w => set_categoryList (option_map (fun c => c ++ [li]) (categoryList w)) w))
  end.

(** The list item of [renderRecentPosts] for one post. *)
Definition recentPostItem (post : Post) : Node :=
  let postUrl := getLinkPath "post" (slug post) in
  Elem "li" ""
    (Js.lit "<a href=`" +:+
     postUrl +:+
     Js.lit "`>" +:+
     escapeHtml (Some (title post)) +:+
     Js.lit "</a>").

(** [renderRecentPosts(posts)] *)
Definition renderRecentPosts (posts : list Post) : M unit :=
  let* w := get in
  match recentPosts w with
  | None => ret tt
  | Some _ =>
      let recentPosts_ := Js.slice (sortNewestFirst env posts) 0 5 in
      modify (set_recentPosts (Some (innerHTML ""))) ;;;
      forEach recentPosts_ (fun post =>
        let li := recentPostItem post in
        modify (fun w => set_recentPosts (option_map (fun c => c ++ [li]) (recentPosts w)) w))
  end.

(** [renderSidebar(posts)] *)
Definition renderSidebar (posts : list Post) : M unit :=
  renderCategories posts ;;;
  renderRecentPosts posts.

(** ** Pagination *)

(** The four pieces of markup of [renderPaginationControls]. *)
Definition previousButton (currentPage_ : Z) : string :=
  Js.lit "<button class=`page-btn prev` onclick=`changePage(" +:+
  Js.ofZ (currentPage_ - 1) +:+
  Js.lit ")`>Previous</button>".

Definition pageNumberButton (currentPage_ i : Z) : string :=
  Js.lit "<button class=`page-num " +:+
  (if i =? currentPage_ then "active" else "") +:+
  Js.lit "` onclick=`changePage(" +:+
  Js.ofZ i +:+
  Js.lit ")`>" +:+
  Js.ofZ i +:+
  Js.lit "</button>".

Definition pageDots : string :=
  Js.lit "<span class=`page-dots`>...</span>".

Definition nextButton (currentPage_ : Z) : string :=
  Js.lit "<button class=`page-btn next` onclick=`changePage(" +:+
  Js.ofZ (currentPage_ + 1) +:+
  Js.lit ")`>Next</button>".

(** One turn of the page-number loop of [renderPaginationControls]. *)
Definition pageNumberStep (currentPage_ totalPages : Z) (html : string) (i : Z) : string :=
  if (i =? 1) || (i =? totalPages) ||
     ((i >=? currentPage_ - 1) && (i <=? currentPage_ + 1)) then
    html +:+ pageNumberButton currentPage_ i
  else if (i =? currentPage_ - 2) || (i =? currentPage_ + 2) then
    html +:+ pageDots
  else html.

(** The markup [renderPaginationControls] assembles when there are at least
    two pages; the loop runs [i] from 1 to [totalPages]. *)
Definition paginationHtml (currentPage_ totalPages : Z) : string :=
  let html := "" in
  let html :=
    if currentPage_ >? 1 then html +:+ previousButton currentPage_ else html in
  let html :=
    fold_left (pageNumberStep currentPage_ totalPages)
      (seqZ 1 totalPages) html in
  let html :=
    if currentPage_ <? totalPages then html +:+ nextButton currentPage_ else html in
  html.

(** [renderPaginationControls()] *)
Definition renderPaginationControls : M unit :=
  let* w := get in
  let totalPages := Js.ceilDiv (Z.of_nat (length (postsData w))) (postsPerPage cfg) in
  (match pagination w with
   | Some _ => ret tt
   | None =>
       if postsSection w then modify (set_pagination (Some []))
       else throw (typeErrorMessage env "appendChild")
   end) ;;;
  if totalPages <=? 1 then modify (set_pagination (Some (innerHTML "")))
  else
    modify (set_pagination (Some (innerHTML (paginationHtml (currentPage w) totalPages)))).

(** [renderPagedPosts(page)]; scrolling is not modelled. *)
Definition renderPagedPosts (page : Z) : M unit :=
  let* w := get in
  if Z.of_nat (length (postsData w)) =? 0 then ret tt
  else
    modify (set_currentPage page) ;;;
    let startIndex := (page - 1) * postsPerPage cfg in
    let endIndex := startIndex + postsPerPage cfg in
    let pagedPosts := Js.slice (postsData w) startIndex endIndex in
    renderPostsGrid pagedPosts ;;;
    renderPaginationControls ;;;
    (if page =? 1 then renderSidebar (postsData w) else ret tt).

(** [window.changePage] *)
Definition changePage (page : Z) : M unit := renderPagedPosts page.

(** ** Single post page *)

(** [headerHtml] of [renderSinglePost]: the title first, then the meta. *)
Definition headerHtml (post : Post) : string :=
  Js.lit "
        <header class=`post-header`>
            <h1 class=`post-title`>" +:+
  escapeHtml (Some (title post)) +:+
  Js.lit "</h1>
            <div class=`post-meta`>
                <span class=`post-category`>" +:+
  escapeHtml (Some (category post)) +:+
  Js.lit "</span>
                <span class=`post-date`>" +:+
  formatDate (date post) +:+
  Js.lit "</span>
            </div>
        </header>
    ".

(** [imageHtml] of [renderSinglePost] *)
Definition imageHtml (post : Post) : string :=
  if Js.truthy (image post) then
    Js.lit "<div class=`post-featured-image`>
               <img src=`" +:+
    escapeHtml (image post) +:+
    Js.lit "` alt=`" +:+
    escapeHtml (Some (title post)) +:+
    Js.lit "`>
           </div>"
  else "".

(** The mid-content and the end-content advertisement placeholders. *)
Definition adMidContent : string :=
  Js.lit "
                    <div class=`ad-mid-content`>
                        <div class=`ad-placeholder`>
                            <p class=`ad-label`>Advertisement</p>
                        </div>
                    </div>
                ".

Definition adEndContent : string :=
  Js.lit "
        <div class=`ad-end-content`>
            <div class=`ad-placeholder`>
                <p class=`ad-label`>Advertisement</p>
            </div>
        </div>
    ".

(** [contentHtml] of [renderSinglePost], for a post that has a [content]. *)
Definition contentHtml (c : Content) : string :=
  let contentHtml := Js.lit "<div class=`post-body`>" in
  let contentHtml :=
    match paragraphs c with
    | Some paragraphs_ =>
        if Z.of_nat (length paragraphs_) >? 0 then
          Js.forEachIndexed (fun contentHtml para index =>
            let contentHtml :=
              contentHtml +:+
              Js.lit "<p>" +:+
              escapeHtml (Some para) +:+
              Js.lit "</p>" in
            if index =? 2 then contentHtml +:+ adMidContent else contentHtml)
            paragraphs_ 0 contentHtml
        else contentHtml
    | None => contentHtml
    end in
  let contentHtml :=
    match ingredients c with
    | Some ingredients_ =>
        if Z.of_nat (length ingredients_) >? 0 then
          let contentHtml := contentHtml +:+ "<h2>Ingredients</h2>" in
          let contentHtml := contentHtml +:+ Js.lit "<ul class=`ingredients-list`>" in
          let contentHtml :=
            fold_left (fun contentHtml ingredient =>
              contentHtml +:+
              Js.lit "<li>" +:+
              escapeHtml (Some ingredient) +:+
              Js.lit "</li>")
              ingredients_ contentHtml in
          contentHtml +:+ "</ul>"
        else contentHtml
    | None => contentHtml
    end in
  let contentHtml :=
    match steps c with
    | Some steps_ =>
        if Z.of_nat (length steps_) >? 0 then
          let contentHtml := contentHtml +:+ "<h2>Instructions</h2>" in
          let contentHtml := contentHtml +:+ Js.lit "<ol class=`steps-list`>" in
          let contentHtml :=
            fold_left (fun contentHtml step =>
              contentHtml +:+
              Js.lit "<li>" +:+
              escapeHtml (Some step) +:+
              Js.lit "</li>")
              steps_ contentHtml in
          contentHtml +:+ "</ol>"
        else contentHtml
    | None => contentHtml
    end in
  let contentHtml := contentHtml +:+ adEndContent in
  contentHtml +:+ "</div>".

(** [renderSinglePost(post)]: reading [post.content.paragraphs] throws when
    the post has no [content]. *)
Definition renderSinglePost (post : Post) : M unit :=
  let* w := get in
  match postContent w with
  | None => ret tt
  | Some _ =>
      let headerHtml_ := headerHtml post in
      let imageHtml_ := imageHtml post in
      match content post with
      | None => throw (typeErrorMessage env "paragraphs")
      | Some c =>
          let contentHtml_ := contentHtml c in
          let article := Elem "div" "" (headerHtml_ +:+ imageHtml_ +:+ contentHtml_) in
          modify (set_postContent (Some (innerHTML ""))) ;;;
          modify (fun w => set_postContent (option_map (fun ch => ch ++ [article]) (postContent w)) w)
      end
  end.

(** ** Related posts *)

(** The [related] list that [renderRelatedPosts] selects. *)
Definition related (currentPost_ : Post) (allPosts : list Post) : list Post :=
  let related :=
    List.filter (fun p =>
      String.eqb (category p) (category currentPost_) &&
      negb (String.eqb (slug p) (slug currentPost_))) allPosts in
  if Z.of_nat (length related) <? 3 then
    let others :=
      List.filter (fun p => negb (String.eqb (slug p) (slug currentPost_))) allPosts in
    Js.slice (related ++ others) 0 3
  else Js.slice related 0 3.

(** The card of one related post. *)
Definition relatedPostCard (post : Post) : string :=
  Js.lit "
        <div class=`related-post-card` onclick=`window.location.href='" +:+
  slug post +:+
  Js.lit ".html'`>
            <div class=`related-post-image`>
                <img src=`" +:+
  escapeHtml (Some (Js.orElse (image post) "https://via.placeholder.com/400x200")) +:+
  Js.lit "` 
                     alt=`" +:+
  escapeHtml (Some (title post)) +:+
  Js.lit "` 
                     loading=`lazy`>
            </div>
            <div class=`related-post-content`>
                <span class=`related-post-category`>" +:+
  escapeHtml (Some (category post)) +:+
  Js.lit "</span>
                <h4 class=`related-post-title`>" +:+
  escapeHtml (Some (title post)) +:+
  Js.lit "</h4>
                <span class=`related-post-date`>" +:+
  formatDate (date post) +:+
  Js.lit "</span>
            </div>
        </div>
    ".

(** [renderRelatedPosts(currentPost, allPosts)] *)
Definition renderRelatedPosts (currentPost_ : Post) (allPosts : list Post) : M unit :=
  let* w := get in
  match relatedPosts w, relatedPostsGrid w with
  | Some _, Some _ =>
      let related_ := related currentPost_ allPosts in
      if Z.of_nat (length related_) =? 0 then ret tt
      else
        modify (set_related (Some "block")
                  (Some (innerHTML (Js.join (map relatedPostCard related_)))))
  | _, _ => ret tt
  end.

(** [loadSinglePost()]; the document head that [updateMetaTags] rewrites is
    not modelled. *)
Definition loadSinglePost : M unit :=
  if postBodyPresent env ||
     match preloadedPost env with Some _ => true | None => false end then
    let* posts := loadPostsIndex in
    renderSidebar posts ;;;
    match preloadedPost env with
    | Some p => renderRelatedPosts p posts
    | None => ret tt
    end
  else
    match slugParam env with
    | Some (String c s) =>
        let slug_ := String c s in
        let* posts := loadPostsData in
        match List.find (fun p => String.eqb (slug p) slug_) posts with
        | None => showError "Post not found (Slug mismatch)"
        | Some post =>
            modify (set_currentPost (Some post)) ;;;
            tryCatch (renderSinglePost post)
              (fun message => showError ("Error rendering post: " +:+ message)) ;;;
            renderSidebar posts
        end
    | _ => showError "Post not found (No slug provided)"
    end.

End Theme.

(** * Reference notions and sample data *)

(** A browser environment for the examples: the homepage, a network that is
    down, every date read as the 13th of January. *)
Definition sampleEnv : Env := {|
  pathname := "/index.html";
  fetch := fun _ => FetchRejects "Failed to fetch";
  getDate := fun _ => Some 13;
  monthShort := fun _ => "Jan";
  typeErrorMessage := fun property =>
    "Cannot read properties of undefined (reading '" +:+ property +:+ "')";
  sortNewestFirst := fun posts => posts;
  postBodyPresent := false;
  preloadedPost := None;
  slugParam := None
|}.

(** A post of the index: no image and no content. *)
Definition indexPost (slug_ category_ : string) : Post := {|
  slug := slug_;
  title := slug_;
  category := category_;
  date := "2026-01-13";
  excerpt := "";
  image := None;
  content := None
|}.

(** A page that has every anchor, all of them empty. *)
Definition emptyPage (posts : list Post) : World := {|
  postsData := posts;
  currentPost := None;
  currentPage := 1;
  currentSlide := 0;
  slides := [];
  dots := [];
  postsGrid := Some [];
  postContent := Some [];
  pagination := Some [];
  postsSection := true;
  relatedPosts := Some "none";
  relatedPostsGrid := Some [];
  categoryList := Some [];
  recentPosts := Some []
|}.

(** An excerpt of 151 characters that starts with a space. *)
Definition leadingSpaceExcerpt : string :=
  String " " (string_of_list_ascii (repeat "a"%char 150)).

(** A page whose carousel shows five slides and five dots, the first of
    each active. *)
Definition fiveSlides : World :=
  set_carousel 0
    (["carousel-slide"; "active"] :: repeat ["carousel-slide"] 4)
    (["carousel-dot"; "active"] :: repeat ["carousel-dot"] 4)
    (emptyPage []).

(** The index [goToSlide] settles on, in one expression. *)
Definition wrapped (n i : Z) : Z :=
  if i <? 0 then n - 1 else if i >=? n then 0 else i.

(** A statement leaves an observation of the world as it found it. *)
Definition preserves {X A} (f : World -> X) (m : M A) : Prop :=
  forall w, f (m w).2 = f w.

(** Ten posts of the index, two pages of the grid. *)
Definition tenPosts : list Post :=
  map (fun i => indexPost ("post-" +:+ Js.ofZ i) "Recipes") (seqZ 1 10).

(** ** Pagination controls, as the specification words them *)

Inductive Control :=
| Previous
| PageNumber (page : Z)
| Ellipsis
| Next.

(** The page a control leads to: the argument of [changePage] in its
    markup.  The ellipsis leads nowhere. *)
Definition controlTarget (currentPage_ : Z) (c : Control) : option Z :=
  match c with
  | Previous => Some (currentPage_ - 1)
  | PageNumber i => Some i
  | Ellipsis => None
  | Next => Some (currentPage_ + 1)
  end.

(** The class of a control; the button of the current page is the one
    marked [active]. *)
Definition controlClass (currentPage_ : Z) (c : Control) : string :=
  match c with
  | Previous => "page-btn prev"
  | PageNumber i => if i =? currentPage_ then "page-num active" else "page-num "
  | Ellipsis => "page-dots"
  | Next => "page-btn next"
  end.

(** The text a control shows. *)
Definition controlLabel (c : Control) : string :=
  match c with
  | Previous => "Previous"
  | PageNumber i => Js.ofZ i
  | Ellipsis => "..."
  | Next => "Next"
  end.

(** A button that changes to a page when clicked. *)
Definition pageButton (className : string) (target : Z) (label : string) : string :=
  Js.lit "<button class=`" +:+ className +:+
  Js.lit "` onclick=`changePage(" +:+ Js.ofZ target +:+ Js.lit ")`>" +:+
  label +:+ "</button>".

(** A placeholder that cannot be clicked. *)
Definition placeholder (className label : string) : string :=
  Js.lit "<span class=`" +:+ className +:+ Js.lit "`>" +:+ label +:+ "</span>".

(** The markup of a control, as the page shows it. *)
Definition controlHtml (currentPage_ : Z) (c : Control) : string :=
  match controlTarget currentPage_ c with
  | Some target => pageButton (controlClass currentPage_ c) target (controlLabel c)
  | None => placeholder (controlClass currentPage_ c) (controlLabel c)
  end.

(** Page 1, the last page and every page within one of the current page. *)
Definition shown (currentPage_ totalPages i : Z) : bool :=
  (i =? 1) || (i =? totalPages) ||
  ((currentPage_ - 1 <=? i) && (i <=? currentPage_ + 1)).

Definition shownPages (currentPage_ totalPages : Z) : list Z :=
  List.filter (shown currentPage_ totalPages) (seqZ 1 totalPages).

(** A button for each page of the list, and one ellipsis wherever two
    neighbours of the list are not consecutive pages. *)
Fixpoint withEllipses (pages : list Z) : list Control :=
  match pages with
  | [] => []
  | a :: rest =>
      PageNumber a ::
      match rest with
      | b :: _ => if b >? a + 1 then [Ellipsis] else []
      | [] => []
      end ++ withEllipses rest
  end.

Definition specControls (currentPage_ totalPages : Z) : list Control :=
  (if currentPage_ =? 1 then [] else [Previous]) ++
  withEllipses (shownPages currentPage_ totalPages) ++
  (if currentPage_ =? totalPages then [] else [Next]).

(** What one turn of the page-number loop adds, as a control. *)
Definition loopControls (currentPage_ totalPages i : Z) : list Control :=
  if (i =? 1) || (i =? totalPages) ||
     ((i >=? currentPage_ - 1) && (i <=? currentPage_ + 1)) then [PageNumber i]
  else if (i =? currentPage_ - 2) || (i =? currentPage_ + 2) then [Ellipsis]
  else [].

(** Twenty posts, three pages of the grid. *)
Definition twentyPosts : list Post :=
  map (fun i => indexPost ("post-" +:+ Js.ofZ i) "Recipes") (seqZ 1 20).

(** ** Related posts: five posts, three of them recipes *)

Definition recipeCurrent : Post := indexPost "bread" "Recipes".
Definition recipePasta : Post := indexPost "pasta" "Recipes".
Definition recipeSoup : Post := indexPost "soup" "Recipes".
Definition travelParis : Post := indexPost "paris" "Travel".
Definition travelRome : Post := indexPost "rome" "Travel".

Definition fivePosts : list Post :=
  [recipeCurrent; recipePasta; recipeSoup; travelParis; travelRome].

(** ** Data loading: what a fetch amounts to *)

(** The [posts] key of the payload of a response that succeeded and parsed
    to an object; [None] for a fetch that rejects, a status that is not a
    success, a body that does not parse and a null payload. *)
Definition payload (o : FetchOutcome) : option (option (list Post)) :=
  match o with
  | FetchResponse true _ (JsonResolves (JsonObject posts)) => Some posts
  | _ => None
  end.

(** The [error.message] that the full-dataset loader catches for a fetch
    that has no payload. *)
Definition failureMessage (env : Env) (o : FetchOutcome) : string :=
  match o with
  | FetchRejects e => e
  | FetchResponse false status _ => "HTTP error! status: " +:+ Js.ofZ status
  | FetchResponse true _ (JsonRejects e) => e
  | FetchResponse true _ (JsonResolves _) => typeErrorMessage env "posts"
  end.

(** The page of a post that is not generated statically: [?slug=bread],
    and a dataset whose only post has no content. *)
Definition dynamicEnv : Env := {|
  pathname := "/post.html";
  fetch := fun _ => FetchResponse true 200
                      (JsonResolves (JsonObject (Some [recipeCurrent])));
  getDate := fun _ => Some 13;
  monthShort := fun _ => "Jan";
  typeErrorMessage := fun property =>
    "Cannot read properties of undefined (reading '" +:+ property +:+ "')";
  sortNewestFirst := fun posts => posts;
  postBodyPresent := false;
  preloadedPost := None;
  slugParam := Some "bread"
|}.

(** ** Error messages, as the specification words them *)

(** The block that surfaces an error on the page: the text, alone in its
    block. *)
Definition errorBlock (text : string) : string :=
  Js.lit "
                <div class=`loading` style=`color: #ef4444;`>
                    " +:+
  text +:+
  Js.lit "
                </div>
            ".

(** ** Single post: the parts of the page, as the specification lists them *)

Inductive Part :=
| TitlePart (title_ : string)
| MetaPart (category_ date_ : string)
| ImagePart (src : option string) (alt : string)
| BodyOpen
| ParagraphPart (text : string)
| AdMidPart
| IngredientsPart (items : list string)
| StepsPart (items : list string)
| AdEndPart
| BodyClose.

Section Parts.
Context (env : Env).

(** The markup of a part.  The title part opens the header and the meta
    part closes it; an advertisement placeholder is a labelled empty
    block. *)
Definition partHtml (p : Part) : string :=
  match p with
  | TitlePart title_ =>
      Js.lit "
        <header class=`post-header`>
            <h1 class=`post-title`>" +:+
      escapeHtml (Some title_) +:+
      Js.lit "</h1>"
  | MetaPart category_ date_ =>
      Js.lit "
            <div class=`post-meta`>
                <span class=`post-category`>" +:+
      escapeHtml (Some category_) +:+
      Js.lit "</span>
                <span class=`post-date`>" +:+
      formatDate env date_ +:+
      Js.lit "</span>
            </div>
        </header>
    "
  | ImagePart src alt =>
      Js.lit "<div class=`post-featured-image`>
               <img src=`" +:+
      escapeHtml src +:+
      Js.lit "` alt=`" +:+
      escapeHtml (Some alt) +:+
      Js.lit "`>
           </div>"
  | BodyOpen => Js.lit "<div class=`post-body`>"
  | ParagraphPart text =>
      Js.lit "<p>" +:+ escapeHtml (Some text) +:+ Js.lit "</p>"
  | AdMidPart =>
      Js.lit "
                    <div class=`ad-mid-content`>
                        <div class=`ad-placeholder`>
                            <p class=`ad-label`>Advertisement</p>
                        </div>
                    </div>
                "
  | IngredientsPart items =>
      "<h2>Ingredients</h2>" +:+ Js.lit "<ul class=`ingredients-list`>" +:+
      Js.join (map (fun item =>
                 Js.lit "<li>" +:+ escapeHtml (Some item) +:+ Js.lit "</li>") items) +:+
      "</ul>"
  | StepsPart items =>
      "<h2>Instructions</h2>" +:+ Js.lit "<ol class=`steps-list`>" +:+
      Js.join (map (fun item =>
                 Js.lit "<li>" +:+ escapeHtml (Some item) +:+ Js.lit "</li>") items) +:+
      "</ol>"
  | AdEndPart =>
      Js.lit "
        <div class=`ad-end-content`>
            <div class=`ad-placeholder`>
                <p class=`ad-label`>Advertisement</p>
            </div>
        </div>
    "
  | BodyClose => "</div>"
  end.

End Parts.

(** The paragraphs in their order, with the advertisement right after the
    paragraph of index 2 when there are at least three. *)
Definition paragraphParts (texts : list string) : list Part :=
  if (3 <=? length texts)%nat then
    map ParagraphPart (take 3 texts) ++ [AdMidPart] ++ map ParagraphPart (drop 3 texts)
  else map ParagraphPart texts.

(** A list that is present: neither absent nor empty. *)
Definition present (l : option (list string)) : option (list string) :=
  match l with
  | Some (x :: l') => Some (x :: l')
  | _ => None
  end.

(** The parts of a post page in the order of the specification. *)
Definition specParts (post : Post) (c : Content) : list Part :=
  [TitlePart (title post); MetaPart (category post) (date post)] ++
  (if Js.truthy (image post) then [ImagePart (image post) (title post)] else []) ++
  [BodyOpen] ++
  paragraphParts (default [] (paragraphs c)) ++
  match present (ingredients c) with
  | Some items => [IngredientsPart items]
  | None => []
  end ++
  match present (steps c) with
  | Some items => [StepsPart items]
  | None => []
  end ++
  [AdEndPart; BodyClose].

(** The parts the paragraph loop adds from index [i] on. *)
Fixpoint paragraphPartsFrom (i : Z) (texts : list string) : list Part :=
  match texts with
  | [] => []
  | text :: rest =>
      ParagraphPart text :: (if i =? 2 then [AdMidPart] else [])
        ++ paragraphPartsFrom (i + 1) rest
  end.

(** A full recipe: four paragraphs, two ingredients, two steps. *)
Definition breadContent : Content := {|
  paragraphs := Some ["One."; "Two."; "Three."; "Four."];
  ingredients := Some ["Flour"; "Water"];
  steps := Some ["Mix."; "Bake."]
|}.

Definition breadPost : Post := {|
  slug := "bread";
  title := "Bread";
  category := "Recipes";
  date := "2026-01-13";
  excerpt := "A loaf.";
  image := Some "img/bread.jpg";
  content := Some breadContent
|}.

(** ** Escaping: what it means for a text to reach the markup encoded *)

(** A markup context: fixed pieces of text, and holes ([None]). *)
Definition fill (e : string) (ctx : list (option string)) : string :=
  Js.join (map (fun piece => match piece with Some s => s | None => e end) ctx).

(** The markup [f t] built from a text [t] holds [t] only as [enc t]: it is
    one fixed context, the same for every [t], with [enc t] in its holes. *)
Definition insertedVia (enc : string -> string) (f : string -> string) : Prop :=
  exists ctx, forall t, f t = fill (enc t) ctx.

Definition encoded (t : string) : string := escapeHtml (Some t).

Definition with_title (t : string) (p : Post) : Post :=
  {| slug := slug p; title := t; category := category p; date := date p;
     excerpt := excerpt p; image := image p; content := content p |}.

Definition with_category (t : string) (p : Post) : Post :=
  {| slug := slug p; title := title p; category := t; date := date p;
     excerpt := excerpt p; image := image p; content := content p |}.

Definition with_excerpt (t : string) (p : Post) : Post :=
  {| slug := slug p; title := title p; category := category p; date := date p;
     excerpt := t; image := image p; content := content p |}.

Definition with_slug (t : string) (p : Post) : Post :=
  {| slug := t; title := title p; category := category p; date := date p;
     excerpt := excerpt p; image := image p; content := content p |}.

(** The markup inside a node. *)
Definition nodeHtml (n : Node) : string :=
  match n with
  | Html markup => markup
  | Elem _ _ inner => inner
  end.

(** [headerHtml + imageHtml + contentHtml], the article of the post page. *)
Definition articleHtml (env : Env) (post : Post) (c : Content) : string :=
  headerHtml env post +:+ imageHtml post +:+ contentHtml c.

(** The script of the classic injection test. *)
Definition scriptText : string := "<script>alert(1)</script>".

Definition with_paragraphs (l : list string) (c : Content) : Content :=
  {| paragraphs := Some l; ingredients := ingredients c; steps := steps c |}.

Definition with_ingredients (l : list string) (c : Content) : Content :=
  {| paragraphs := paragraphs c; ingredients := Some l; steps := steps c |}.

Definition with_steps (l : list string) (c : Content) : Content :=
  {| paragraphs := paragraphs c; ingredients := ingredients c; steps := Some l |}.

(** The number of holes of a context and the length of its fixed text. *)
Definition holes (ctx : list (option string)) : nat :=
  length (List.filter (fun piece => match piece with None => true | Some _ => false end) ctx).

Definition fixedLength (ctx : list (option string)) : nat :=
  list_sum (map (fun piece => match piece with Some s => String.length s | None => 0%nat end) ctx).

Definition with_image (t : string) (p : Post) : Post :=
  {| slug := slug p; title := title p; category := category p; date := date p;
     excerpt := excerpt p; image := Some t; content := content p |}.

(** The markup [f t] shows the text [t], and shows it as [enc t]: it is one
    fixed context, the same for every [t], that has at least one hole, with
    [enc t] in its holes. *)
Definition shownVia (enc : string -> string) (f : string -> string) : Prop :=
  exists ctx, (0 < holes ctx)%nat /\ forall t, f t = fill (enc t) ctx.

(** A text that can neither open or close a tag nor end an attribute value
    in double quotes. *)
Definition inert (s : string) : Prop :=
  forall ch, In ch (list_ascii_of_string s) ->
             ch <> "<"%char /\ ch <> ">"%char /\ ch <> Js.dquote.

(** A post with an ampersand in its category and in the URL of its image. *)
Definition stewPost : Post := {|
  slug := "stew";
  title := "Stew";
  category := "Soups & Stews";
  date := "2026-01-13";
  excerpt := "A stew.";
  image := Some "img/stew.jpg?w=1&h=2";
  content := None
|}.

(** A title that closes the attribute it stands in. *)
Definition quotedTitle : string := Js.lit "a` onload=`alert(1)".

(** * Further functions of the source *)

(** ** Carousel: selection, handlers and the auto-slide timer *)

(** [carouselPosts] of [renderHeroCarousel], from the array that the random
    sort of [[...posts]] produced. *)
Definition selectCarouselPosts (shuffled posts : list Post) : list Post :=
  let featuredCount := Z.min 5 (Z.of_nat (length posts)) in
  Js.slice shuffled 0 featuredCount.

Section Handlers.
Context (env : Env).

(** The click handlers of [setupCarouselNavigation] and the callback of the
    interval of [startAutoSlide]. *)
Definition carouselPrevClick : M unit :=
  let* w := get in goToSlide env (currentSlide w - 1).

Definition carouselNextClick : M unit :=
  let* w := get in goToSlide env (currentSlide w + 1).

Definition autoSlideTick : M unit :=
  let* w := get in goToSlide env (currentSlide w + 1).

(** [n] turns of the interval. *)
Fixpoint autoSlideTicks (n : nat) : M unit :=
  match n with
  | O => ret tt
  | S n' => autoSlideTick ;;; autoSlideTicks n'
  end.

End Handlers.

(** The timer side of the carousel: the global [carouselInterval], the
    intervals that the browser has running, and the last handle it gave
    out (handles are integers greater than zero, never reused). *)
Record Timers := {
  carouselInterval : option Z;
  running : list Z;
  lastHandle : Z
}.

(** [clearInterval(handle)] *)
Definition clearInterval (handle : Z) (t : Timers) : Timers :=
  {| carouselInterval := carouselInterval t;
     running := List.filter (fun h => negb (h =? handle)) (running t);
     lastHandle := lastHandle t |}.

(** [stopAutoSlide()]: a handle of 0 and [null] are falsy. *)
Definition stopAutoSlide (t : Timers) : Timers :=
  match carouselInterval t with
  | Some handle =>
      if handle =? 0 then t
      else
        let t := clearInterval handle t in
        {| carouselInterval := None; running := running t;
           lastHandle := lastHandle t |}
  | None => t
  end.

(** [startAutoSlide()] *)
Definition startAutoSlide (t : Timers) : Timers :=
  let t := stopAutoSlide t in
  let handle := lastHandle t + 1 in
  {| carouselInterval := Some handle;
     running := running t ++ [handle];
     lastHandle := handle |}.

(** What starts and stops the timer: [renderHeroCarousel] and the
    [mouseleave] listener start it, the [mouseenter] listener stops it. *)
Inductive TimerEvent :=
| CarouselRendered
| MouseEnter
| MouseLeave.

Definition onTimerEvent (t : Timers) (e : TimerEvent) : Timers :=
  match e with
  | CarouselRendered => startAutoSlide t
  | MouseEnter => stopAutoSlide t
  | MouseLeave => startAutoSlide t
  end.

(** The page before the script has run: [carouselInterval] is undefined and
    no interval runs. *)
Definition noTimers : Timers :=
  {| carouselInterval := None; running := []; lastHandle := 0 |}.

(** ** Pagination: the kinds of control *)

Definition isPageNumber (c : Control) : bool :=
  match c with PageNumber _ => true | _ => false end.

Definition isEllipsis (c : Control) : bool :=
  match c with Ellipsis => true | _ => false end.

(** ** Escaping: the characters that serialization replaces *)

Definition isSpecial (c : ascii) : bool :=
  Ascii.eqb c "&" || Ascii.eqb c (ascii_of_nat 160) ||
  Ascii.eqb c "<" || Ascii.eqb c ">".

(** A text that holds none of them. *)
Definition plain (s : string) : Prop :=
  forall c, In c (list_ascii_of_string s) -> isSpecial c = false.

(** ** The sidebar: the count shown beside a category *)

Definition categoryCount (posts : list Post) (category_ : string) : Z :=
  Z.of_nat (length (List.filter (fun p => String.eqb (category p) category_) posts)).

(** ** Sample data for the further properties *)

(** Six posts, four of them recipes. *)
Definition sixPosts : list Post :=
  [recipeCurrent; recipePasta; recipeSoup; travelParis;
   indexPost "cake" "Recipes"; travelRome].

(** The intervals that run are exactly the one [carouselInterval] holds,
    and the handles given out are positive. *)
Definition timersOk (t : Timers) : Prop :=
  running t = match carouselInterval t with Some h => [h] | None => [] end /\
  (forall h, carouselInterval t = Some h -> 0 < h <= lastHandle t) /\
  0 <= lastHandle t.

(** A statically generated page of the bread recipe. *)
Definition staticEnv : Env := {|
  pathname := "/posts/bread.html";
  fetch := fetch dynamicEnv;
  getDate := getDate dynamicEnv;
  monthShort := monthShort dynamicEnv;
  typeErrorMessage := typeErrorMessage dynamicEnv;
  sortNewestFirst := sortNewestFirst dynamicEnv;
  postBodyPresent := true;
  preloadedPost := Some recipeCurrent;
  slugParam := None
|}.

(** The page [?slug=bread] with the network down. *)
Definition offlineEnv : Env := {|
  pathname := "/post.html";
  fetch := fetch sampleEnv;
  getDate := getDate sampleEnv;
  monthShort := monthShort sampleEnv;
  typeErrorMessage := typeErrorMessage sampleEnv;
  sortNewestFirst := sortNewestFirst sampleEnv;
  postBodyPresent := false;
  preloadedPost := None;
  slugParam := Some "bread"
|}.

(** * Properties *)

(** ** Strings *)

Lemma string_app_length (s t : string) :
  String.length (s +:+ t) = (String.length s + String.length t)%nat.
Proof. induction s as [|c s IH]; simpl; [reflexivity | now rewrite IH]. Qed.

Lemma substring_length_le (s : string) (n m : nat) :
  (String.length (String.substring n m s) <= m)%nat.
Proof.
  revert n m. induction s as [|c s IH]; intros [|n] [|m]; simpl; try lia.
  - specialize (IH 0%nat m). lia.
  - apply (IH n 0%nat).
  - apply (IH n (S m)).
Qed.

Lemma trimStart_length (s : string) :
  (String.length (Js.trimStart s) <= String.length s)%nat.
Proof.
  induction s as [|c s IH]; simpl; [lia |].
  destruct (Js.isWhiteSpace c); simpl; lia.
Qed.

Lemma trimEnd_length (s : string) :
  (String.length (Js.trimEnd s) <= String.length s)%nat.
Proof.
  induction s as [|c s IH]; simpl; [lia |].
  destruct (Js.trimEnd s); [destruct (Js.isWhiteSpace c) |]; simpl in *; lia.
Qed.

Lemma trim_length (s : string) :
  (String.length (Js.trim s) <= String.length s)%nat.
Proof.
  unfold Js.trim. pose proof (trimEnd_length (Js.trimStart s)).
  pose proof (trimStart_length s). lia.
Qed.

(** [text.substring(0, n)] is the first [n] characters when the text is
    longer than [n]. *)
Lemma substring_prefix (s : string) (n : Z) :
  0 <= n <= Js.length s ->
  Js.substring s 0 n = String.substring 0 (Z.to_nat n) s.
Proof.
  intros H. unfold Js.substring, Js.clamp.
  replace (Z.max 0 (Z.min 0 (Js.length s))) with 0 by lia.
  replace (Z.max 0 (Z.min n (Js.length s))) with n by lia.
  replace (Z.min 0 n) with 0 by lia. replace (Z.max 0 n - 0) with n by lia.
  reflexivity.
Qed.

(** ** Excerpt truncation *)

(** C8, as the source has it: an excerpt longer than the configured maximum
    of 150 becomes its first 150 characters, trimmed of white space at both
    ends (leading as well as trailing), followed by the three-character
    ellipsis marker, at most 153 and so at most 154 characters in all; an
    excerpt of at most 150 characters is returned unchanged. *)
Theorem truncateText_excerpt (pathname_ s : string) :
  let maxLength := excerptLength (CONFIG pathname_) in
  maxLength = 150 /\
  (Js.length s > maxLength ->
     truncateText (Some s) maxLength
       = Some (Js.trimEnd (Js.trimStart (String.substring 0 150 s)) +:+ "...") /\
     forall out, truncateText (Some s) maxLength = Some out ->
                 Js.length out <= 153 /\ Js.length out <= 154) /\
  (Js.length s <= maxLength -> truncateText (Some s) maxLength = Some s).
Proof.
  cbn zeta. change (excerptLength (CONFIG pathname_)) with 150.
  split; [reflexivity |]. split.
  - intros Hlen.
    assert (Hcut : truncateText (Some s) 150
              = Some (Js.trimEnd (Js.trimStart (String.substring 0 150 s)) +:+ "...")).
    { unfold truncateText. destruct s as [|c s]; [now vm_compute in Hlen |].
      cbn [Js.truthy negb orb].
      destruct (Z.leb_spec (Js.length (String c s)) 150) as [Hle | _]; [lia |].
      rewrite substring_prefix by lia. reflexivity. }
    split; [exact Hcut |]. intros out Hout. rewrite Hcut in Hout.
    injection Hout as <-. unfold Js.length. rewrite string_app_length.
    pose proof (trim_length (String.substring 0 150 s)) as Ht.
    pose proof (substring_length_le s 0 150) as Hs.
    unfold Js.trim in Ht. cbn [String.length]. lia.
  - intros Hlen. unfold truncateText.
    destruct (Z.leb_spec (Js.length s) 150) as [_ | Hgt]; [| lia].
    now rewrite orb_true_r.
Qed.

(** The theorem at the 151-character excerpt that starts with a space. *)
Lemma truncateText_excerpt_witness :
  Js.length leadingSpaceExcerpt > 150 /\
  truncateText (Some leadingSpaceExcerpt) 150
    = Some (string_of_list_ascii (repeat "a"%char 149) +:+ "...").
Proof.
  split; [reflexivity |].
  destruct (truncateText_excerpt "/index.html" leadingSpaceExcerpt) as [_ [Hlong _]].
  destruct (Hlong eq_refl) as [Hcut _].
  exact Hcut.
Defined.

(** C8 as stated fails: trimming only the trailing white space of the first
    150 characters keeps the leading space that the source strips. *)
Lemma truncateText_trailing_only_counterexample :
  Js.length leadingSpaceExcerpt > 150 /\
  truncateText (Some leadingSpaceExcerpt) 150
    <> Some (Js.trimEnd (String.substring 0 150 leadingSpaceExcerpt) +:+ "...").
Proof.
  split; [reflexivity |]. vm_compute. discriminate.
Qed.

(** ** Carousel navigation *)

Lemma classRemove_absent (token : string) (cl : list string) :
  ~ In token (Js.classRemove token cl).
Proof.
  unfold Js.classRemove. rewrite filter_In. intros [_ H].
  now rewrite String.eqb_refl in H.
Qed.

Lemma classAdd_present (token : string) (cl : list string) :
  In token (Js.classAdd token cl).
Proof.
  unfold Js.classAdd. destruct (existsb (String.eqb token) cl) eqn:E.
  - apply existsb_exists in E as (t & Hin & Heq).
    apply String.eqb_eq in Heq. now subst.
  - apply in_or_app. right. now left.
Qed.

Lemma wrapped_range (n i : Z) : 0 < n -> 0 <= wrapped n i < n.
Proof.
  intros Hn. unfold wrapped.
  destruct (Z.ltb_spec i 0); [lia |].
  destruct (Z.geb_spec i n); lia.
Qed.

(** What one call of [goToSlide] does on a carousel that has slides. *)
Lemma goToSlide_run (env : Env) (i : Z) (w : World) :
  slides w <> [] ->
  let t := wrapped (Z.of_nat (length (slides w))) i in
  goToSlide env i w =
    (Ok tt,
     set_carousel t
       (alter (Js.classAdd "active") (Z.to_nat t)
          (map (Js.classRemove "active") (slides w)))
       (match map (Js.classRemove "active") (dots w) !! Z.to_nat t with
        | Some _ => alter (Js.classAdd "active") (Z.to_nat t)
                      (map (Js.classRemove "active") (dots w))
        | None => map (Js.classRemove "active") (dots w)
        end) w).
Proof.
  intros Hne t. unfold goToSlide, bind, get.
  assert (Hn : 0 < Z.of_nat (length (slides w))).
  { destruct (slides w); [congruence | simpl; lia]. }
  destruct (Z.eqb_spec (Z.of_nat (length (slides w))) 0) as [E | _]; [lia |].
  pose proof (wrapped_range _ i Hn) as Ht. fold t in Ht.
  assert (Heq : (if (if i <? 0 then Z.of_nat (length (slides w)) - 1 else i)
                       >=? Z.of_nat (length (slides w))
                 then 0
                 else if i <? 0 then Z.of_nat (length (slides w)) - 1 else i) = t).
  { unfold t, wrapped. destruct (Z.ltb_spec i 0); [| reflexivity].
    destruct (Z.geb_spec (Z.of_nat (length (slides w)) - 1)
                (Z.of_nat (length (slides w)))); [lia | reflexivity]. }
  rewrite Heq.
  destruct (map (Js.classRemove "active") (slides w) !! Z.to_nat t) as [cl |] eqn:El.
  - reflexivity.
  - apply lookup_ge_None in El. rewrite length_map in El. lia.
Qed.

(** C10: whatever integer it is given, [goToSlide] leaves [currentSlide]
    within the slides when there are any, and changes nothing at all (the
    index and the DOM alike) when there are none. *)
Theorem goToSlide_currentSlide_in_range (env : Env) (i : Z) (w : World) :
  (slides w <> [] ->
     exists w', goToSlide env i w = (Ok tt, w') /\
                0 <= currentSlide w' < Z.of_nat (length (slides w)) /\
                length (slides w') = length (slides w)) /\
  (slides w = [] -> goToSlide env i w = (Ok tt, w)).
Proof.
  split.
  - intros Hne. eexists. split; [apply goToSlide_run, Hne |].
    cbn [currentSlide slides set_carousel]. split.
    + apply wrapped_range. destruct (slides w); [congruence | simpl; lia].
    + now rewrite length_alter, length_map.
  - intros He. unfold goToSlide, bind, get. now rewrite He.
Qed.

(** The theorem on five slides at index 7, and on a page with no carousel. *)
Lemma goToSlide_currentSlide_in_range_witness :
  slides fiveSlides <> [] /\
  slides (emptyPage []) = [] /\
  (exists w', goToSlide sampleEnv 7 fiveSlides = (Ok tt, w') /\
              0 <= currentSlide w' < 5) /\
  goToSlide sampleEnv 7 (emptyPage []) = (Ok tt, emptyPage []).
Proof.
  assert (Hne : slides fiveSlides <> []) by discriminate.
  split; [exact Hne |]. split; [reflexivity |]. split.
  - destruct (proj1 (goToSlide_currentSlide_in_range sampleEnv 7 fiveSlides) Hne)
      as (w' & Hrun & Hrange & _).
    exists w'. split; [exact Hrun | exact Hrange].
  - exact (proj2 (goToSlide_currentSlide_in_range sampleEnv 7 (emptyPage [])) eq_refl).
Defined.

Lemma active_after_alter (l : list (list string)) (t j : nat) (cl : list string) :
  alter (Js.classAdd "active") t (map (Js.classRemove "active") l) !! j = Some cl ->
  In "active" cl <-> j = t.
Proof.
  intros H. destruct (decide (j = t)) as [-> | Hne].
  - rewrite list_lookup_alter_eq in H.
    destruct (map (Js.classRemove "active") l !! t) as [cl0 |]; [| discriminate].
    injection H as <-. split; [reflexivity |]. intros _. apply classAdd_present.
  - rewrite list_lookup_alter_ne in H by congruence.
    rewrite list_lookup_fmap in H.
    destruct (l !! j) as [cl0 |]; [| discriminate]. injection H as <-.
    split; [| congruence]. intros Hin. now apply classRemove_absent in Hin.
Qed.

Lemma active_after_remove (l : list (list string)) (j : nat) (cl : list string) :
  map (Js.classRemove "active") l !! j = Some cl -> ~ In "active" cl.
Proof.
  rewrite list_lookup_fmap. destruct (l !! j); [| discriminate].
  intros H. injection H as <-. apply classRemove_absent.
Qed.

(** C3, as the source has it: on a carousel of n > 0 slides [goToSlide(i)]
    goes to slide n-1 for every negative [i], to slide 0 for every [i >= n]
    and to [i] itself otherwise.  That is [i mod n] when [-1 <= i <= n], and
    in general exactly when [i] is in range, or negative with [i + 1] a
    multiple of n, or at least n and a multiple of n.  Exactly the target
    slide, and among the dots exactly the target dot, carries the class
    [active] afterwards.  On five slides [goToSlide(-1)] gives 4 and
    [goToSlide(5)] gives 0. *)
Theorem goToSlide_wraps (env : Env) (i : Z) (w : World) :
  let n := Z.of_nat (length (slides w)) in
  0 < n ->
  exists w',
    goToSlide env i w = (Ok tt, w') /\
    let t := currentSlide w' in
    0 <= t < n /\
    (i < 0 -> t = n - 1) /\
    (n <= i -> t = 0) /\
    (0 <= i < n -> t = i) /\
    (-1 <= i <= n -> t = i mod n) /\
    (t = i mod n <->
     0 <= i < n \/ (i < 0 /\ (i + 1) mod n = 0) \/ (n <= i /\ i mod n = 0)) /\
    length (slides w') = length (slides w) /\
    length (dots w') = length (dots w) /\
    (forall j cl, slides w' !! j = Some cl -> In "active" cl <-> Z.of_nat j = t) /\
    (forall j cl, dots w' !! j = Some cl -> In "active" cl <-> Z.of_nat j = t) /\
    (n = 5 -> (i = -1 -> t = 4) /\ (i = 5 -> t = 0)).
Proof.
  intros n Hn.
  assert (Hne : slides w <> []).
  { intros E. subst n. rewrite E in Hn. simpl in Hn. lia. }
  eexists. split; [apply goToSlide_run, Hne |].
  cbn [currentSlide slides dots set_carousel]. fold n.
  pose proof (wrapped_range n i Hn) as Ht.
  set (t := wrapped n i) in *.
  assert (Hneg : i < 0 -> t = n - 1).
  { intros H. unfold t, wrapped. destruct (Z.ltb_spec i 0); lia. }
  assert (Hover : n <= i -> t = 0).
  { intros H. unfold t, wrapped. destruct (Z.ltb_spec i 0); [lia |].
    destruct (Z.geb_spec i n); lia. }
  assert (Hin : 0 <= i < n -> t = i).
  { intros H. unfold t, wrapped. destruct (Z.ltb_spec i 0); [lia |].
    destruct (Z.geb_spec i n); lia. }
  assert (Hmod : t = i mod n <->
            0 <= i < n \/ (i < 0 /\ (i + 1) mod n = 0) \/ (n <= i /\ i mod n = 0)).
  { destruct (Z_lt_le_dec i 0) as [Hi | Hi];
      [rewrite (Hneg Hi)
      | destruct (Z_le_gt_dec n i) as [Hi' | Hi'];
        [rewrite (Hover Hi') | rewrite Hin by lia]].
    - split.
      + intros H. right. left. split; [exact Hi |].
        replace (i + 1) with (i mod n + 1 + n * (i / n))
          by (rewrite (Z.div_mod i n) at 3 by lia; lia).
        rewrite <- H. replace (n - 1 + 1 + n * (i / n)) with ((1 + i / n) * n) by lia.
        apply Z.mod_mul. lia.
      + intros [H | [[_ H] | H]]; [lia | | lia].
        apply Z.mod_divide in H; [| lia]. destruct H as [q Hq].
        replace i with (n - 1 + (q - 1) * n) by lia.
        rewrite Z.mod_add by lia. now rewrite Z.mod_small by lia.
    - split.
      + intros H. right. right. split; [exact Hi' | now symmetry].
      + intros [H | [H | [_ H]]]; [lia | lia | now symmetry].
    - rewrite Z.mod_small by lia. split; [intros _; left; lia | intros _; reflexivity]. }
  split; [exact Ht |]. split; [exact Hneg |]. split; [exact Hover |].
  split; [exact Hin |].
  split; [| split; [exact Hmod |]].
  { intros H.
    destruct (Z.eq_dec i (-1)) as [-> | ?];
      [rewrite Hneg by lia;
       replace (-1) with (n - 1 + (-1) * n) by lia;
       rewrite Z.mod_add by lia; now rewrite Z.mod_small by lia |].
    destruct (Z.eq_dec i n) as [-> | ?];
      [rewrite Hover by lia; now rewrite Z.mod_same by lia |].
    rewrite Hin by lia. now rewrite Z.mod_small by lia. }
  repeat split; try lia; auto.
  - now rewrite length_alter, length_map.
  - destruct (map (Js.classRemove "active") (dots w) !! Z.to_nat t);
      [rewrite length_alter |]; now rewrite length_map.
  - intros Hact. apply active_after_alter in H. apply H in Hact. lia.
  - intros Hj. apply active_after_alter in H. apply H. lia.
  - intros Hact.
    destruct (map (Js.classRemove "active") (dots w) !! Z.to_nat t) eqn:Ed.
    + apply active_after_alter in H. apply H in Hact. lia.
    + now apply active_after_remove in H.
  - intros Hj.
    destruct (map (Js.classRemove "active") (dots w) !! Z.to_nat t) eqn:Ed.
    + apply active_after_alter in H. apply H. lia.
    + assert (j = Z.to_nat t) as -> by lia. congruence.
Qed.

(** The theorem on five slides at index -1. *)
Lemma goToSlide_wraps_witness :
  0 < Z.of_nat (length (slides fiveSlides)) /\
  exists w', goToSlide sampleEnv (-1) fiveSlides = (Ok tt, w') /\
             currentSlide w' = 4.
Proof.
  split; [reflexivity |].
  destruct (goToSlide_wraps sampleEnv (-1) fiveSlides eq_refl)
    as (w' & Hrun & _ & Hneg & _).
  exists w'. split; [exact Hrun |]. exact (Hneg eq_refl).
Defined.

(** C3 as stated fails for an index below -1: modular wraparound of -2 on
    five slides is slide 3, and the source goes to slide 4. *)
Lemma goToSlide_not_modular_counterexample :
  0 < Z.of_nat (length (slides fiveSlides)) /\
  currentSlide (goToSlide sampleEnv (-2) fiveSlides).2 = 4 /\
  currentSlide (goToSlide sampleEnv (-2) fiveSlides).2
    <> (-2) mod Z.of_nat (length (slides fiveSlides)).
Proof. repeat split. vm_compute. discriminate. Qed.

(** ** Frame lemmas for statements *)

Lemma preserves_ret {X A} (f : World -> X) (a : A) : preserves f (ret a).
Proof. now intros w. Qed.

Lemma preserves_throw {X A} (f : World -> X) (e : string) :
  preserves f (throw (A := A) e).
Proof. now intros w. Qed.

Lemma preserves_get {X} (f : World -> X) : preserves f get.
Proof. now intros w. Qed.

Lemma preserves_modify {X} (f : World -> X) (g : World -> World) :
  (forall w, f (g w) = f w) -> preserves f (modify g).
Proof. intros H w. apply H. Qed.

Lemma preserves_bind {X A B} (f : World -> X) (m : M A) (k : A -> M B) :
  preserves f m -> (forall a, preserves f (k a)) -> preserves f (bind m k).
Proof.
  intros Hm Hk w. unfold bind. specialize (Hm w).
  destruct (m w) as [[a | e] w1]; simpl in *; [| exact Hm].
  now rewrite Hk.
Qed.

Lemma preserves_tryCatch {X A} (f : World -> X) (m : M A) (h : string -> M A) :
  preserves f m -> (forall e, preserves f (h e)) -> preserves f (tryCatch m h).
Proof.
  intros Hm Hh w. unfold tryCatch. specialize (Hm w).
  destruct (m w) as [[a | e] w1]; simpl in *; [exact Hm |].
  now rewrite Hh.
Qed.

Lemma preserves_forEach {X A} (f : World -> X) (l : list A) (body : A -> M unit) :
  (forall x, preserves f (body x)) -> preserves f (forEach l body).
Proof.
  intros H. induction l as [| x l IH]; simpl.
  - apply preserves_ret.
  - apply preserves_bind; [apply H | intros ?; exact IH].
Qed.

(** Splits a statement into its steps and closes each with the setters'
    definitions. *)
Ltac frame :=
  repeat first
    [ apply preserves_ret | apply preserves_throw | apply preserves_get
    | apply preserves_bind; [| intros ?]
    | apply preserves_tryCatch; [| intros ?]
    | apply preserves_forEach; intros ?
    | apply preserves_modify; intros ?; reflexivity
    | match goal with
      | |- preserves _ (match ?x with _ => _ end) => destruct x
      | |- preserves _ (if ?b then _ else _) => destruct b
      end ].

Lemma renderSidebar_preserves_grid (env : Env) (posts : list Post) :
  preserves (fun w => (postsData w, postsGrid w, postContent w))
    (renderSidebar env posts).
Proof. unfold renderSidebar, renderCategories, renderRecentPosts. frame. Qed.

Lemma renderPaginationControls_preserves_grid (env : Env) :
  preserves (fun w => (postsData w, postsGrid w, postContent w))
    (renderPaginationControls env).
Proof. unfold renderPaginationControls. frame. Qed.

(** ** The homepage grid *)

Lemma forEach_append_cards (env : Env) (posts : list Post) (w : World) (g : list Node) :
  postsGrid w = Some g ->
  forEach posts (fun post =>
      let card := createPostCard env post in
      modify (fun w => set_postsGrid
                (option_map (fun c => c ++ [card]) (postsGrid w)) w)) w
  = (Ok tt, set_postsGrid (Some (g ++ map (createPostCard env) posts)) w).
Proof.
  revert w g. induction posts as [| post posts IH]; intros w g Hg; simpl.
  - unfold ret. rewrite app_nil_r, <- Hg. now destruct w.
  - unfold bind, modify at 1. cbn zeta.
    rewrite (IH _ (g ++ [createPostCard env post])).
    + rewrite <- app_assoc. now destruct w.
    + rewrite Hg. now destruct w.
Qed.

Lemma renderPostsGrid_run (env : Env) (posts : list Post) (w : World) (g : list Node) :
  postsGrid w = Some g ->
  renderPostsGrid env posts w
  = (Ok tt, set_postsGrid (Some (map (createPostCard env) posts)) w).
Proof.
  intros Hg. unfold renderPostsGrid, bind at 1, get. rewrite Hg.
  unfold bind, modify at 1.
  rewrite (forEach_append_cards env posts _ []) by now destruct w.
  now destruct w.
Qed.

(** The grid after [renderPagedPosts(page)] holds the cards of the slice,
    whether or not the pagination that follows can be rendered. *)
Lemma renderPagedPosts_grid (env : Env) (page : Z) (w : World) (g : list Node) :
  postsGrid w = Some g ->
  postsData w <> [] ->
  postsGrid (renderPagedPosts env page w).2
  = Some (map (createPostCard env)
            (Js.slice (postsData w) ((page - 1) * 8) ((page - 1) * 8 + 8))).
Proof.
  intros Hg Hne. unfold renderPagedPosts, bind at 1, get.
  destruct (Z.eqb_spec (Z.of_nat (length (postsData w))) 0) as [E | _].
  { destruct (postsData w); [congruence | simpl in E; lia]. }
  unfold bind at 1, modify at 1. unfold bind at 1.
  change (postsPerPage (cfg env)) with 8.
  rewrite (renderPostsGrid_run env _ _ g) by now destruct w.
  match goal with
  | |- postsGrid (bind ?m ?k ?w0).2 = _ =>
      pose proof (preserves_bind (fun w => (postsData w, postsGrid w, postContent w)) m k
                    (renderPaginationControls_preserves_grid env)) as Hfr;
      specialize (Hfr ltac:(intros ?; cbv beta; destruct (page =? 1);
                             [apply renderSidebar_preserves_grid | apply preserves_ret]) w0)
  end.
  apply (f_equal (fun t => t.1.2)) in Hfr. cbn [fst snd] in Hfr.
  rewrite Hfr. now destruct w.
Qed.

Lemma slice_chunk {A} (l : list A) (k : nat) :
  Js.slice l (Z.of_nat k * 8) (Z.of_nat k * 8 + 8) = take 8 (drop (8 * k) l).
Proof.
  unfold Js.slice.
  destruct (Z.ltb_spec (Z.of_nat k * 8) 0); [lia |].
  destruct (Z.ltb_spec (Z.of_nat k * 8 + 8) 0); [lia |].
  destruct (Nat.le_gt_cases (8 * k) (length l)) as [Hle | Hgt].
  - replace (Z.to_nat (Z.min (Z.of_nat k * 8) (Z.of_nat (length l)))) with (8 * k)%nat by lia.
    destruct (Nat.le_gt_cases (8 * k + 8) (length l)) as [Hfull | Hpart].
    + f_equal. lia.
    + rewrite !take_ge; [reflexivity | |]; rewrite length_drop; lia.
  - replace (Z.to_nat (Z.min (Z.of_nat k * 8 + 8) (Z.of_nat (length l))
                       - Z.min (Z.of_nat k * 8) (Z.of_nat (length l)))) with 0%nat by lia.
    rewrite (drop_ge l (8 * k)) by lia. reflexivity.
Qed.

Lemma chunks_concat {A} (n : nat) (l : list A) :
  (length l <= 8 * n)%nat ->
  concat (map (fun k => take 8 (drop (8 * k) l)) (seq 0 n)) = l.
Proof.
  revert l. induction n as [| n IH]; intros l Hlen.
  - destruct l; [reflexivity | simpl in Hlen; lia].
  - cbn [seq map concat]. rewrite <- seq_shift, map_map.
    transitivity (take 8 l ++ drop 8 l); [| apply take_drop].
    f_equal.
    rewrite <- (IH (drop 8 l)) by (rewrite length_drop; lia).
    f_equal. apply map_ext. intros k. rewrite drop_drop. do 2 f_equal. lia.
Qed.

Lemma ceilDiv_8 (n : Z) : 0 <= n -> forall p, p <= Js.ceilDiv n 8 <-> (p - 1) * 8 < n.
Proof.
  intros Hn p. unfold Js.ceilDiv.
  pose proof (Z.div_mod (- n) 8 ltac:(lia)) as Hdm.
  pose proof (Z.mod_pos_bound (- n) 8 ltac:(lia)) as Hb.
  lia.
Qed.

(** C5: on a page that has the grid, every valid page number [p] shows the
    cards of the contiguous slice that starts at index (p-1)*8 and has
    min(8, N-(p-1)*8) posts, and the cards of pages 1 to ceil(N/8), one page
    after the other, are the cards of the whole sequence in its order. *)
Theorem renderPagedPosts_partition (env : Env) (w : World) (g : list Node) :
  postsGrid w = Some g ->
  let N := Z.of_nat (length (postsData w)) in
  let totalPages := Js.ceilDiv N (postsPerPage (cfg env)) in
  let cardsOf := fun p => default [] (postsGrid (renderPagedPosts env p w).2) in
  (forall p, 1 <= p <= totalPages ->
     let start := (p - 1) * 8 in
     let size := Z.min 8 (N - start) in
     postsGrid (renderPagedPosts env p w).2
       = Some (map (createPostCard env)
                 (take (Z.to_nat size) (drop (Z.to_nat start) (postsData w)))) /\
     Z.of_nat (length (cardsOf p)) = size) /\
  concat (map cardsOf (seqZ 1 totalPages)) = map (createPostCard env) (postsData w).
Proof.
  intros Hg N totalPages cardsOf.
  change (postsPerPage (cfg env)) with 8 in totalPages.
  assert (HN : 0 <= N) by (unfold N; lia).
  assert (Hcards : forall k : nat, postsData w <> [] ->
            cardsOf (Z.of_nat k + 1)
            = map (createPostCard env) (take 8 (drop (8 * k) (postsData w)))).
  { intros k Hne. unfold cardsOf.
    rewrite (renderPagedPosts_grid env _ w g Hg Hne).
    replace (Z.of_nat k + 1 - 1) with (Z.of_nat k) by lia.
    now rewrite slice_chunk. }
  split.
  - intros p Hp start size.
    assert (Hlt : start < N) by (apply ceilDiv_8; [exact HN | apply Hp]).
    assert (Hne : postsData w <> []).
    { intros E. unfold N in Hlt. rewrite E in Hlt. simpl in Hlt. unfold start in Hlt. lia. }
    assert (Hslice : take 8 (drop (8 * Z.to_nat (p - 1)) (postsData w))
                     = take (Z.to_nat size) (drop (Z.to_nat start) (postsData w))).
    { replace (8 * Z.to_nat (p - 1))%nat with (Z.to_nat start) by (unfold start; lia).
      unfold size. destruct (Z.le_gt_cases 8 (N - start)).
      - f_equal. lia.
      - rewrite !take_ge; [reflexivity | |]; rewrite length_drop; unfold N in *; lia. }
    pose proof (Hcards (Z.to_nat (p - 1)) Hne) as Hc.
    replace (Z.of_nat (Z.to_nat (p - 1)) + 1) with p in Hc by lia.
    rewrite Hslice in Hc. split.
    + rewrite (renderPagedPosts_grid env _ w g Hg Hne).
      replace p with (Z.of_nat (Z.to_nat (p - 1)) + 1) at 1 2 by lia.
      replace (Z.of_nat (Z.to_nat (p - 1)) + 1 - 1) with (Z.of_nat (Z.to_nat (p - 1))) by lia.
      now rewrite slice_chunk, Hslice.
    + rewrite Hc, length_map, length_take, length_drop. unfold size, N. lia.
  - destruct (decide (postsData w = [])) as [E | Hne].
    + subst totalPages N. rewrite E. reflexivity.
    + unfold seqZ. rewrite <- list_fmap_compose.
      rewrite (list_fmap_ext _ (fun k => map (createPostCard env)
                                   (take 8 (drop (8 * k) (postsData w)))) (seq 0 (Z.to_nat totalPages))).
      2:{ intros i k _. cbn. now apply Hcards. }
      change (fmap ?f ?l) with (map f l).
      rewrite <- (map_map (fun k => take 8 (drop (8 * k) (postsData w)))
                          (map (createPostCard env))).
      rewrite <- concat_map. f_equal. apply chunks_concat.
      pose proof (proj1 (ceilDiv_8 N HN (totalPages + 1))) as Hup.
      pose proof (proj2 (ceilDiv_8 N HN (totalPages + 1))) as Hdown.
      fold totalPages in Hup, Hdown.
      assert (0 <= totalPages).
      { destruct (Z.le_gt_cases 0 totalPages); [assumption |].
        pose proof (proj2 (ceilDiv_8 N HN 0) ltac:(lia)). fold totalPages in H0. lia. }
      unfold N in *. lia.
Qed.

(** The theorem on ten posts: page 2 holds the last two cards. *)
Lemma renderPagedPosts_partition_witness :
  postsGrid (emptyPage tenPosts) = Some [] /\
  postsGrid (renderPagedPosts sampleEnv 2 (emptyPage tenPosts)).2
    = Some (map (createPostCard sampleEnv) (drop 8 tenPosts)).
Proof.
  split; [reflexivity |].
  destruct (renderPagedPosts_partition sampleEnv (emptyPage tenPosts) [] eq_refl)
    as [Hpage _].
  exact (proj1 (Hpage 2 ltac:(vm_compute; split; discriminate))).
Defined.

(** ** Pagination controls *)

Lemma string_app_assoc (s t u : string) : (s +:+ t) +:+ u = s +:+ (t +:+ u).
Proof.
  induction s as [| c s IH]; [reflexivity |].
  change (String c ((s +:+ t) +:+ u) = String c (s +:+ t +:+ u)).
  now rewrite IH.
Qed.

Lemma string_app_nil_r (s : string) : s +:+ "" = s.
Proof.
  induction s as [| c s IH]; [reflexivity |].
  change (String c (s +:+ "") = String c s). now rewrite IH.
Qed.

Lemma join_cons (s : string) (l : list string) : Js.join (s :: l) = s +:+ Js.join l.
Proof.
  unfold Js.join. destruct l as [| t l]; cbn [String.concat].
  - now rewrite string_app_nil_r.
  - reflexivity.
Qed.

Lemma join_app (l1 l2 : list string) : Js.join (l1 ++ l2) = Js.join l1 +:+ Js.join l2.
Proof.
  induction l1 as [| s l1 IH]; [reflexivity |].
  cbn [app]. now rewrite !join_cons, IH, string_app_assoc.
Qed.

(** The four pieces of markup of the source are the markup of the four
    kinds of control. *)
Lemma previousButton_control (cur : Z) : previousButton cur = controlHtml cur Previous.
Proof. reflexivity. Qed.

Lemma nextButton_control (cur : Z) : nextButton cur = controlHtml cur Next.
Proof. reflexivity. Qed.

Lemma pageDots_control (cur : Z) : pageDots = controlHtml cur Ellipsis.
Proof. reflexivity. Qed.

Lemma pageNumberButton_control (cur i : Z) :
  pageNumberButton cur i = controlHtml cur (PageNumber i).
Proof.
  unfold pageNumberButton, controlHtml, controlTarget, controlClass, controlLabel.
  destruct (i =? cur); reflexivity.
Qed.

(** The loop appends the markup of the controls it adds. *)
Lemma pageNumberStep_fold (cur total : Z) (l : list Z) (html : string) :
  fold_left (pageNumberStep cur total) l html
  = html +:+ Js.join (map (controlHtml cur) (flat_map (loopControls cur total) l)).
Proof.
  revert html. induction l as [| i l IH]; intros html; cbn [fold_left flat_map].
  - now rewrite string_app_nil_r.
  - rewrite IH, map_app, join_app. unfold pageNumberStep, loopControls.
    rewrite pageNumberButton_control, (pageDots_control cur).
    destruct ((i =? 1) || (i =? total) || ((i >=? cur - 1) && (i <=? cur + 1))).
    + cbn [map]. rewrite (join_cons _ []). cbn [Js.join String.concat].
      now rewrite string_app_nil_r, string_app_assoc.
    + destruct ((i =? cur - 2) || (i =? cur + 2)).
      * cbn [map]. rewrite (join_cons _ []). cbn [Js.join String.concat].
        now rewrite string_app_nil_r, string_app_assoc.
      * reflexivity.
Qed.

Lemma flat_map_all_nil {A B} (f : A -> list B) (l : list A) :
  (forall x, In x l -> f x = []) -> flat_map f l = [].
Proof.
  induction l as [| x l IH]; intros H; [reflexivity |].
  cbn [flat_map]. rewrite (H x) by now left.
  apply IH. intros y Hy. apply H. now right.
Qed.

Lemma filter_all_false {A} (f : A -> bool) (l : list A) :
  (forall x, In x l -> f x = false) -> List.filter f l = [].
Proof.
  induction l as [| x l IH]; intros H; [reflexivity |].
  cbn [List.filter]. rewrite (H x) by now left.
  apply IH. intros y Hy. apply H. now right.
Qed.

Lemma filter_all_true {A} (f : A -> bool) (l : list A) :
  (forall x, In x l -> f x = true) -> List.filter f l = l.
Proof.
  induction l as [| x l IH]; intros H; [reflexivity |].
  cbn [List.filter]. rewrite (H x) by now left.
  f_equal. apply IH. intros y Hy. apply H. now right.
Qed.

Lemma In_seqZ (m n k : Z) : In k (seqZ m n) <-> m <= k < m + n.
Proof. rewrite <- list_elem_of_In. apply elem_of_seqZ. Qed.

Lemma seqZ_one (m : Z) : seqZ m 1 = [m].
Proof. reflexivity. Qed.

(** The pages 1 to [total]: page 1, the pages before the window around the
    current page, the window, the pages after it, the last page. *)
Lemma pages_split (cur total : Z) :
  2 <= total -> 1 <= cur <= total ->
  let lo := Z.max 2 (cur - 1) in
  let hi := Z.min (total - 1) (cur + 1) in
  seqZ 1 total
  = [1] ++ seqZ 2 (lo - 2) ++ seqZ lo (hi + 1 - lo)
        ++ seqZ (hi + 1) (total - 1 - hi) ++ [total].
Proof.
  intros Ht Hc lo hi.
  replace total with (1 + ((lo - 2) + ((hi + 1 - lo) + ((total - 1 - hi) + 1)))) at 1 by lia.
  rewrite seqZ_app by lia. rewrite seqZ_one. f_equal.
  rewrite seqZ_app by lia. f_equal.
  replace (1 + 1 + (lo - 2)) with lo by lia.
  rewrite seqZ_app by lia. f_equal.
  replace (lo + (hi + 1 - lo)) with (hi + 1) by lia.
  rewrite seqZ_app by lia. f_equal.
  replace (hi + 1 + (total - 1 - hi)) with total by lia.
  apply seqZ_one.
Qed.

Ltac bool_arith :=
  repeat match goal with
         | |- context [?a =? ?b] => destruct (Z.eqb_spec a b)
         | |- context [?a <=? ?b] => destruct (Z.leb_spec a b)
         | |- context [?a <? ?b] => destruct (Z.ltb_spec a b)
         | |- context [?a >=? ?b] => destruct (Z.geb_spec a b)
         | |- context [?a >? ?b] => destruct (Z.gtb_spec a b)
         end;
  cbn [orb andb negb]; try reflexivity; try lia.

(** The controls of the loop, in closed form. *)
Lemma loopControls_closed (cur total : Z) :
  2 <= total -> 1 <= cur <= total ->
  let lo := Z.max 2 (cur - 1) in
  let hi := Z.min (total - 1) (cur + 1) in
  flat_map (loopControls cur total) (seqZ 1 total)
  = [PageNumber 1] ++ (if 2 <? lo then [Ellipsis] else [])
      ++ map PageNumber (seqZ lo (hi + 1 - lo))
      ++ (if hi + 1 <? total then [Ellipsis] else []) ++ [PageNumber total].
Proof.
  intros Ht Hc lo hi. rewrite (pages_split cur total Ht Hc). fold lo hi.
  rewrite !flat_map_app.
  assert (Hfirst : flat_map (loopControls cur total) [1] = [PageNumber 1]).
  { cbn [flat_map app]. unfold loopControls. now bool_arith. }
  assert (Hlast : flat_map (loopControls cur total) [total] = [PageNumber total]).
  { cbn [flat_map app]. unfold loopControls. now bool_arith. }
  assert (Hbefore : flat_map (loopControls cur total) (seqZ 2 (lo - 2))
                    = if 2 <? lo then [Ellipsis] else []).
  { destruct (Z.ltb_spec 2 lo) as [Hgap | Hno].
    - replace (lo - 2) with ((lo - 3) + 1) by lia.
      rewrite seqZ_app by lia. rewrite seqZ_one, flat_map_app.
      rewrite flat_map_all_nil.
      + cbn [flat_map app]. unfold loopControls. bool_arith.
      + intros i Hi. apply In_seqZ in Hi. unfold loopControls. bool_arith.
    - now rewrite seqZ_nil by lia. }
  assert (Hwindow : flat_map (loopControls cur total) (seqZ lo (hi + 1 - lo))
                    = map PageNumber (seqZ lo (hi + 1 - lo))).
  { assert (H : forall l, (forall i, In i l -> lo <= i <= hi) ->
                flat_map (loopControls cur total) l = map PageNumber l).
    { induction l as [| i l IH]; intros Hin; [reflexivity |].
      cbn [flat_map map]. rewrite IH by (intros; apply Hin; now right).
      specialize (Hin i ltac:(now left)). unfold loopControls. now bool_arith. }
    apply H. intros i Hi. apply In_seqZ in Hi. lia. }
  assert (Hafter : flat_map (loopControls cur total) (seqZ (hi + 1) (total - 1 - hi))
                   = if hi + 1 <? total then [Ellipsis] else []).
  { destruct (Z.ltb_spec (hi + 1) total) as [Hgap | Hno].
    - rewrite seqZ_cons by lia. cbn [flat_map].
      rewrite flat_map_all_nil.
      + unfold loopControls. bool_arith.
      + intros i Hi. apply In_seqZ in Hi. unfold loopControls. bool_arith.
    - now rewrite seqZ_nil by lia. }
  now rewrite Hfirst, Hlast, Hbefore, Hwindow, Hafter.
Qed.

Lemma withEllipses_run (m : nat) (lo t : Z) :
  lo + Z.of_nat m <= t ->
  withEllipses (seqZ lo (Z.of_nat m) ++ [t])
  = map PageNumber (seqZ lo (Z.of_nat m))
      ++ (if (0 <? Z.of_nat m) && (lo + Z.of_nat m <? t) then [Ellipsis] else [])
      ++ [PageNumber t].
Proof.
  revert lo. induction m as [| m IH]; intros lo Hle; [reflexivity |].
  rewrite seqZ_cons by lia.
  replace (Z.pred (Z.of_nat (S m))) with (Z.of_nat m) by lia.
  cbn [app withEllipses map]. rewrite IH by lia. f_equal.
  destruct m as [| m].
  - change (Z.of_nat 0) with 0. rewrite !seqZ_nil by lia. cbn [app map]. bool_arith.
  - rewrite (seqZ_cons (Z.succ lo)) by lia. cbn [app].
    destruct (Z.gtb_spec (Z.succ lo) (lo + 1)); [lia |]. cbn [app].
    rewrite <- (seqZ_cons (Z.succ lo)) by lia. f_equal. bool_arith.
Qed.

(** The pages the specification shows: 1, the window, the last page. *)
Lemma shownPages_closed (cur total : Z) :
  2 <= total -> 1 <= cur <= total ->
  let lo := Z.max 2 (cur - 1) in
  let hi := Z.min (total - 1) (cur + 1) in
  shownPages cur total = 1 :: seqZ lo (hi + 1 - lo) ++ [total].
Proof.
  intros Ht Hc lo hi. unfold shownPages.
  rewrite (pages_split cur total Ht Hc). fold lo hi.
  rewrite !List.filter_app.
  rewrite (filter_all_false _ (seqZ 2 (lo - 2))).
  2:{ intros i Hi. apply In_seqZ in Hi. unfold shown. bool_arith. }
  rewrite (filter_all_false _ (seqZ (hi + 1) (total - 1 - hi))).
  2:{ intros i Hi. apply In_seqZ in Hi. unfold shown. bool_arith. }
  rewrite (filter_all_true _ (seqZ lo (hi + 1 - lo))).
  2:{ intros i Hi. apply In_seqZ in Hi. unfold shown. bool_arith. }
  cbn [List.filter app]. unfold shown.
  destruct (Z.eqb_spec total 1); [lia |]. rewrite !Z.eqb_refl. cbn [orb].
  reflexivity.
Qed.

(** The loop of the source adds the controls that the specification words
    describe. *)
Lemma loopControls_spec (cur total : Z) :
  2 <= total -> 1 <= cur <= total ->
  flat_map (loopControls cur total) (seqZ 1 total)
  = withEllipses (shownPages cur total).
Proof.
  intros Ht Hc. rewrite (loopControls_closed cur total Ht Hc).
  rewrite (shownPages_closed cur total Ht Hc).
  set (lo := Z.max 2 (cur - 1)). set (hi := Z.min (total - 1) (cur + 1)).
  assert (Hm : 0 <= hi + 1 - lo) by lia.
  cbn [withEllipses app]. f_equal.
  replace (hi + 1 - lo) with (Z.of_nat (Z.to_nat (hi + 1 - lo))) by lia.
  rewrite withEllipses_run by lia.
  destruct (Z.to_nat (hi + 1 - lo)) as [| m] eqn:Em.
  - change (Z.of_nat 0) with 0. rewrite !seqZ_nil by lia. cbn [app map]. bool_arith.
  - rewrite (seqZ_cons lo) by lia. cbn [app map].
    destruct (Z.ltb_spec 2 lo); destruct (Z.gtb_spec lo (1 + 1)); try lia;
      cbn [app]; do 2 f_equal; bool_arith.
Qed.

Lemma paginationHtml_controls (cur total : Z) :
  2 <= total -> 1 <= cur <= total ->
  paginationHtml cur total
  = Js.join (map (controlHtml cur) (specControls cur total)).
Proof.
  intros Ht Hc. unfold paginationHtml, specControls.
  rewrite pageNumberStep_fold, (loopControls_spec cur total Ht Hc).
  rewrite !map_app, !join_app.
  destruct (Z.gtb_spec cur 1); destruct (Z.eqb_spec cur 1); try lia;
    destruct (Z.ltb_spec cur total); destruct (Z.eqb_spec cur total); try lia;
    cbn [map]; rewrite ?(join_cons _ []); cbn [Js.join String.concat];
    rewrite ?string_app_nil_r, ?string_app_assoc; reflexivity.
Qed.

(** The controls in closed form: Previous, page 1, an ellipsis if the
    window around the current page starts after page 2, the pages of the
    window, an ellipsis if the window ends before the page next to the last,
    the last page, Next. *)
Lemma specControls_closed (cur total : Z) :
  2 <= total -> 1 <= cur <= total ->
  let lo := Z.max 2 (cur - 1) in
  let hi := Z.min (total - 1) (cur + 1) in
  specControls cur total
  = (if cur =? 1 then [] else [Previous]) ++
    ([PageNumber 1] ++ (if 2 <? lo then [Ellipsis] else [])
       ++ map PageNumber (seqZ lo (hi + 1 - lo))
       ++ (if hi + 1 <? total then [Ellipsis] else []) ++ [PageNumber total]) ++
    (if cur =? total then [] else [Next]).
Proof.
  intros Ht Hc lo hi. unfold specControls.
  rewrite <- (loopControls_spec cur total Ht Hc).
  now rewrite (loopControls_closed cur total Ht Hc).
Qed.

Lemma elem_of_if_singleton {A} (b : bool) (x y : A) :
  x ∈ (if b then [y] else []) <-> b = true /\ x = y.
Proof.
  destruct b.
  - rewrite list_elem_of_singleton. tauto.
  - split; [intros H; inversion H | intros [H _]; discriminate H].
Qed.

Lemma elem_of_unless_singleton {A} (b : bool) (x y : A) :
  x ∈ (if b then [] else [y]) <-> b = false /\ x = y.
Proof.
  destruct b.
  - split; [intros H; inversion H | intros [H _]; discriminate H].
  - rewrite list_elem_of_singleton. tauto.
Qed.

(** Which controls there are. *)
Lemma specControls_elem (cur total : Z) (c : Control) :
  2 <= total -> 1 <= cur <= total ->
  c ∈ specControls cur total <->
  match c with
  | Previous => cur <> 1
  | Next => cur <> total
  | PageNumber i =>
      1 <= i <= total /\ (i = 1 \/ i = total \/ cur - 1 <= i <= cur + 1)
  | Ellipsis => 3 < cur \/ cur < total - 2
  end.
Proof.
  intros Ht Hc. rewrite (specControls_closed cur total Ht Hc). cbv zeta.
  rewrite !elem_of_app, !elem_of_if_singleton, !elem_of_unless_singleton,
    !list_elem_of_singleton, list_elem_of_fmap.
  rewrite Z.eqb_neq, Z.eqb_neq, Z.ltb_lt, Z.ltb_lt.
  destruct c as [| i | |].
  - split; [intros [[H _] | [[H | [[_ H] | [(j & H & _) | [[_ H] | H]]]] | [_ H]]];
             try discriminate H; exact H
           | intros H; left; now split].
  - split.
    + intros [[_ H] | [[H | [[_ H] | [(j & H & Hj) | [[_ H] | H]]]] | [_ H]]];
        try discriminate H.
      * injection H as ->. lia.
      * injection H as ->. apply elem_of_seqZ in Hj. lia.
      * injection H as ->. lia.
    + intros [Hi Hshown]. right. left.
      destruct (Z.eq_dec i 1) as [-> | H1]; [now left |].
      destruct (Z.eq_dec i total) as [-> | Hl]; [do 4 right; reflexivity |].
      right. right. left. exists i. split; [reflexivity |].
      apply elem_of_seqZ. lia.
  - split.
    + intros [[_ H] | [[H | [[Hgap _] | [(j & H & _) | [[Hgap _] | H]]]] | [_ H]]];
        try discriminate H; lia.
    + intros [H | H]; right; left; right.
      * left. split; [lia | reflexivity].
      * do 2 right. left. split; [lia | reflexivity].
  - split; [intros [[_ H] | [[H | [[_ H] | [(j & H & _) | [[_ H] | H]]]] | [H _]]];
             try discriminate H; exact H
           | intros H; do 2 right; now split].
Qed.

(** C2, as the source has it: with at most one page the pagination anchor is
    emptied; with at least two pages and the current page among them it
    receives the Previous button iff the current page is not 1, a button for
    page 1, for the last page and for every page within one of the current
    page and for no other page, one ellipsis in each gap between buttons
    that are not consecutive (before the window of the current page iff the
    current page is beyond 3, after it iff the current page is more than two
    before the last), and the Next button iff the current page is not the
    last.  Each button is a [button] element whose click calls [changePage]
    with the page it leads to, each ellipsis a [span] with three dots.  For
    20 posts (3 pages) at page 2 these are Previous, the buttons 1, 2, 3
    with no ellipsis, and Next; at page 1 of 10 pages they are the buttons 1
    and 2, one ellipsis, the button 10 and Next: page 3 has no button and
    the ellipsis stands between 2 and 10. *)
Theorem renderPaginationControls_controls (env : Env) (w : World) (old : list Node) :
  let totalPages :=
    Js.ceilDiv (Z.of_nat (length (postsData w))) (postsPerPage (cfg env)) in
  let cur := currentPage w in
  pagination w = Some old ->
  (totalPages <= 1 ->
     renderPaginationControls env w = (Ok tt, set_pagination (Some []) w)) /\
  (2 <= totalPages -> 1 <= cur <= totalPages ->
     renderPaginationControls env w
     = (Ok tt,
        set_pagination
          (Some [Html (Js.join (map (controlHtml cur) (specControls cur totalPages)))])
          w) /\
     paginationHtml cur totalPages
     = Js.join (map (controlHtml cur) (specControls cur totalPages)) /\
     (Previous ∈ specControls cur totalPages <-> cur <> 1) /\
     (Next ∈ specControls cur totalPages <-> cur <> totalPages) /\
     (forall i, PageNumber i ∈ specControls cur totalPages <->
                1 <= i <= totalPages /\
                (i = 1 \/ i = totalPages \/ cur - 1 <= i <= cur + 1)) /\
     (let lo := Z.max 2 (cur - 1) in
      let hi := Z.min (totalPages - 1) (cur + 1) in
      specControls cur totalPages
      = (if cur =? 1 then [] else [Previous]) ++
        ([PageNumber 1] ++ (if 2 <? lo then [Ellipsis] else [])
           ++ map PageNumber (seqZ lo (hi + 1 - lo))
           ++ (if hi + 1 <? totalPages then [Ellipsis] else [])
           ++ [PageNumber totalPages]) ++
        (if cur =? totalPages then [] else [Next]))) /\
  (forall page,
     controlHtml cur Previous
     = Js.lit "<button class=`page-btn prev` onclick=`changePage(" +:+
       Js.ofZ (cur - 1) +:+ Js.lit ")`>Previous</button>" /\
     controlHtml cur Next
     = Js.lit "<button class=`page-btn next` onclick=`changePage(" +:+
       Js.ofZ (cur + 1) +:+ Js.lit ")`>Next</button>" /\
     controlHtml cur (PageNumber page)
     = Js.lit "<button class=`page-num " +:+
       (if page =? cur then "active" else "") +:+
       Js.lit "` onclick=`changePage(" +:+ Js.ofZ page +:+ Js.lit ")`>" +:+
       Js.ofZ page +:+ "</button>" /\
     controlHtml cur Ellipsis = Js.lit "<span class=`page-dots`>...</span>") /\
  paginationHtml 2 (Js.ceilDiv 20 (postsPerPage (cfg env)))
    = Js.join (map (controlHtml 2)
        [Previous; PageNumber 1; PageNumber 2; PageNumber 3; Next]) /\
  paginationHtml 1 10
    = Js.join (map (controlHtml 1)
        [PageNumber 1; PageNumber 2; Ellipsis; PageNumber 10; Next]).
Proof.
  intros totalPages cur Hp.
  split; [| split; [| split; [| split; reflexivity]]].
  - intros Ht. unfold renderPaginationControls, bind at 1, get. fold totalPages.
    rewrite Hp. unfold bind at 1, ret.
    destruct (Z.leb_spec totalPages 1); [reflexivity | lia].
  - intros Ht Hc.
    split; [| split; [exact (paginationHtml_controls cur totalPages Ht Hc) |]].
    + unfold renderPaginationControls, bind at 1, get. fold totalPages cur.
      rewrite Hp. unfold bind at 1, ret.
      destruct (Z.leb_spec totalPages 1); [lia |].
      rewrite (paginationHtml_controls cur totalPages Ht Hc).
      replace (innerHTML (Js.join (map (controlHtml cur) (specControls cur totalPages))))
        with [Html (Js.join (map (controlHtml cur) (specControls cur totalPages)))];
        [reflexivity |].
      unfold specControls. rewrite !map_app, !join_app.
      rewrite (shownPages_closed cur totalPages Ht Hc). cbn [withEllipses map].
      rewrite join_cons.
      destruct (cur =? 1); cbn [map]; rewrite ?join_cons, ?join_nil; reflexivity.
    + split; [exact (specControls_elem cur totalPages Previous Ht Hc) |].
      split; [exact (specControls_elem cur totalPages Next Ht Hc) |].
      split; [intros i; exact (specControls_elem cur totalPages (PageNumber i) Ht Hc) |].
      exact (specControls_closed cur totalPages Ht Hc).
  - intros page. split; [reflexivity |]. split; [reflexivity |].
    split; [| reflexivity].
    symmetry. apply pageNumberButton_control.
Qed.

(** The theorem on twenty posts at page 2. *)
Lemma renderPaginationControls_controls_witness :
  let w := set_currentPage 2 (emptyPage twentyPosts) in
  pagination w = Some [] /\
  renderPaginationControls sampleEnv w
    = (Ok tt,
       set_pagination
         (Some [Html (Js.join (map (controlHtml 2)
            [Previous; PageNumber 1; PageNumber 2; PageNumber 3; Next]))]) w).
Proof.
  cbv zeta. split; [reflexivity |].
  assert (H2 : 2 <= 3) by lia. assert (H1 : 1 <= 2 <= 3) by lia.
  exact (proj1 (proj1 (proj2 (renderPaginationControls_controls sampleEnv
                  (set_currentPage 2 (emptyPage twentyPosts)) [] eq_refl)) H2 H1)).
Defined.

(** C2 as stated fails at page 1 of 10 pages: the markup is that of the
    buttons 1 and 2, an ellipsis and the button 10, and it is not the markup
    with a button for page 3 before the ellipsis. *)
Lemma pagination_first_of_ten_counterexample :
  paginationHtml 1 10
    = Js.join (map (controlHtml 1)
        [PageNumber 1; PageNumber 2; Ellipsis; PageNumber 10; Next]) /\
  paginationHtml 1 10
    <> Js.join (map (controlHtml 1)
        [PageNumber 1; PageNumber 2; PageNumber 3; Ellipsis; PageNumber 10; Next]).
Proof.
  split; [reflexivity |].
  intros H. apply String.eqb_eq in H. vm_compute in H. discriminate.
Qed.

(** ** Related posts *)

(** With exactly two other posts of the category, the third entry is the
    first post of the whole sequence that is not the current one. *)
Lemma related_two_same_category (currentPost_ a b : Post) (allPosts : list Post) :
  List.filter (fun p =>
      String.eqb (category p) (category currentPost_) &&
      negb (String.eqb (slug p) (slug currentPost_))) allPosts = [a; b] ->
  related currentPost_ allPosts
  = a :: b :: take 1 (List.filter
                        (fun p => negb (String.eqb (slug p) (slug currentPost_)))
                        allPosts).
Proof.
  intros H. unfold related. rewrite H. cbn [length Z.of_nat app].
  unfold Js.slice. cbn [Z.ltb Z.compare Pos.compare Pos.compare_cont].
  cbn [length app drop]. 
  set (others := List.filter _ allPosts).
  replace (Z.to_nat (Z.min 3 (Z.of_nat (S (S (length others)))) - Z.min 0 (Z.of_nat (S (S (length others))))))
    with (2 + Nat.min 1 (length others))%nat by lia.
  replace (Z.to_nat (Z.min 0 (Z.of_nat (S (S (length others)))))) with 0%nat by lia.
  cbn [drop take Nat.add]. do 2 f_equal.
  destruct others as [| x others']; reflexivity.
Qed.

(** C1 at a dataset that lists the recipes first: the selection for the
    current recipe among five posts, two other recipes and two travel
    posts, is pasta, soup and pasta again; the backfilled entry repeats a
    post of the same category, while the claim promises three distinct
    entries that end with a post of another category. *)
Theorem related_backfill_repeats :
  related recipeCurrent fivePosts = [recipePasta; recipeSoup; recipePasta] /\
  ~ NoDup (related recipeCurrent fivePosts) /\
  related recipeCurrent fivePosts <> [recipePasta; recipeSoup; travelParis].
Proof.
  split; [reflexivity |]. split.
  - change (related recipeCurrent fivePosts)
      with [recipePasta; recipeSoup; recipePasta].
    intros H. apply NoDup_cons_1_1 in H. apply H. 
    apply list_elem_of_In. right. now left.
  - change (related recipeCurrent fivePosts)
      with [recipePasta; recipeSoup; recipePasta].
    intros H. discriminate H.
Qed.

(** ** Data loading *)

Lemma loadErrorMarkup_visible (env : Env) (message : string) :
  innerHTML (loadErrorMarkup env message) = [Html (loadErrorMarkup env message)].
Proof. reflexivity. Qed.

Lemma loadPostsData_ok (env : Env) (w : World) (posts : option (list Post)) :
  payload (fetch env (dataPath (cfg env))) = Some posts ->
  loadPostsData env w = (Ok (default [] posts), set_postsData (default [] posts) w).
Proof.
  intros H. unfold loadPostsData, tryCatch.
  destruct (fetch env (dataPath (cfg env))) as [e | [|] st [e | [| ps]]];
    try discriminate H.
  injection H as <-. reflexivity.
Qed.

Lemma loadPostsData_failed (env : Env) (w : World) :
  payload (fetch env (dataPath (cfg env))) = None ->
  loadPostsData env w
  = (Ok [],
     match postsGrid w with
     | Some _ =>
         set_postsGrid
           (Some [Html (loadErrorMarkup env
                          (failureMessage env (fetch env (dataPath (cfg env)))))]) w
     | None => w
     end).
Proof.
  intros H. unfold loadPostsData, tryCatch.
  destruct (fetch env (dataPath (cfg env))) as [e | [|] st [e | [| ps]]];
    try discriminate H;
    cbn [negb failureMessage]; unfold throw, bind, get, modify, ret;
    destruct (postsGrid w); rewrite ?loadErrorMarkup_visible; reflexivity.
Qed.

(** C6: the index loader hands over to the full-dataset loader whenever the
    index fetch rejects, answers with a status that is not a success or does
    not parse to an object; the full-dataset loader then returns the empty
    sequence and, where the page has the grid, leaves in it one error block
    whose text contains the path it tried; and whenever a fetch succeeds,
    either loader returns the [posts] array of the payload, empty when that
    key is absent. *)
Theorem loaders_contract (env : Env) (w : World) :
  let index := fetch env (indexPath (cfg env)) in
  let full := fetch env (dataPath (cfg env)) in
  (payload index = None -> loadPostsIndex env w = loadPostsData env w) /\
  (forall posts, payload index = Some posts ->
     loadPostsIndex env w
     = (Ok (default [] posts), set_postsData (default [] posts) w)) /\
  (payload full = None ->
     let block := loadErrorMarkup env (failureMessage env full) in
     loadPostsData env w
     = (Ok [],
        match postsGrid w with
        | Some _ => set_postsGrid (Some [Html block]) w
        | None => w
        end) /\
     exists before after, block = before +:+ dataPath (cfg env) +:+ after) /\
  (forall posts, payload full = Some posts ->
     loadPostsData env w
     = (Ok (default [] posts), set_postsData (default [] posts) w)).
Proof.
  cbv zeta. repeat split.
  - intros H.
    assert (Hok : exists a w', loadPostsData env w = (Ok a, w')).
    { destruct (payload (fetch env (dataPath (cfg env)))) as [posts |] eqn:E.
      - rewrite (loadPostsData_ok env w posts E). eauto.
      - rewrite (loadPostsData_failed env w E). eauto. }
    destruct Hok as (a & w' & Hok).
    unfold loadPostsIndex, tryCatch.
    destruct (fetch env (indexPath (cfg env))) as [e | [|] st [e | [| ps]]];
      try discriminate H; cbn [negb]; unfold throw; rewrite ?Hok; reflexivity.
  - intros posts H. unfold loadPostsIndex, tryCatch.
    destruct (fetch env (indexPath (cfg env))) as [e | [|] st [e | [| ps]]];
      try discriminate H.
    injection H as <-. reflexivity.
  - now apply loadPostsData_failed.
  - unfold loadErrorMarkup.
    exists (Js.lit "
                <div style=`grid-column: 1/-1; text-align: center; padding: 40px;`>
                    <h3>Unable to load posts</h3>
                    <p>Error: " +:+
            failureMessage env (fetch env (dataPath (cfg env))) +:+
            Js.lit "</p>
                    <p>Path: "),
           (Js.lit "</p>
                    <p>Please check browser console for details.</p>
                </div>
            ").
    now rewrite !string_app_assoc.
  - intros posts H. now apply loadPostsData_ok.
Qed.

(** The theorem with the network down: the index loader ends in the error
    block of the full-dataset loader. *)
Lemma loaders_contract_witness :
  payload (fetch sampleEnv (indexPath (cfg sampleEnv))) = None /\
  payload (fetch sampleEnv (dataPath (cfg sampleEnv))) = None /\
  loadPostsIndex sampleEnv (emptyPage [])
  = (Ok [], set_postsGrid
              (Some [Html (loadErrorMarkup sampleEnv "Failed to fetch")])
              (emptyPage [])).
Proof.
  split; [reflexivity |]. split; [reflexivity |].
  destruct (loaders_contract sampleEnv (emptyPage [])) as (Hidx & _ & Hfull & _).
  destruct (Hfull eq_refl) as (Hrun & _).
  rewrite (Hidx eq_refl). exact Hrun.
Defined.

(** ** The single post page *)

Lemma string_app_nil_l (s : string) : "" +:+ s = s.
Proof. reflexivity. Qed.

Lemma join_nil : Js.join [] = "".
Proof. reflexivity. Qed.

(** Brings a concatenation of markup into right-nested form. *)
Ltac flatten_markup :=
  repeat first
    [ progress cbn [map app partHtml]
    | rewrite map_app | rewrite join_app | rewrite join_cons | rewrite join_nil
    | rewrite string_app_assoc | rewrite string_app_nil_r
    | rewrite string_app_nil_l ].

Lemma paragraph_loop (env : Env) (texts : list string) (i : Z) (acc : string) :
  Js.forEachIndexed
    (fun contentHtml para index =>
       let contentHtml :=
         contentHtml +:+
         Js.lit "<p>" +:+ escapeHtml (Some para) +:+ Js.lit "</p>" in
       if index =? 2 then contentHtml +:+ adMidContent else contentHtml)
    texts i acc
  = acc +:+ Js.join (map (partHtml env) (paragraphPartsFrom i texts)).
Proof.
  revert i acc. induction texts as [| text rest IH]; intros i acc.
  - cbn [Js.forEachIndexed paragraphPartsFrom map]. now flatten_markup.
  - cbn [Js.forEachIndexed paragraphPartsFrom]. cbv zeta. rewrite IH.
    destruct (i =? 2); cbn [map app partHtml]; now flatten_markup.
Qed.

Lemma item_loop (items : list string) (acc : string) :
  fold_left
    (fun contentHtml item =>
       contentHtml +:+ Js.lit "<li>" +:+ escapeHtml (Some item) +:+ Js.lit "</li>")
    items acc
  = acc +:+ Js.join (map (fun item =>
                        Js.lit "<li>" +:+ escapeHtml (Some item) +:+ Js.lit "</li>")
                       items).
Proof.
  revert acc. induction items as [| item rest IH]; intros acc; cbn [fold_left map].
  - now flatten_markup.
  - rewrite IH. now flatten_markup.
Qed.

Lemma paragraphPartsFrom_plain (i : Z) (texts : list string) :
  2 < i -> paragraphPartsFrom i texts = map ParagraphPart texts.
Proof.
  revert i. induction texts as [| text rest IH]; intros i Hi; [reflexivity |].
  cbn [paragraphPartsFrom map]. destruct (Z.eqb_spec i 2); [lia |].
  cbn [app]. now rewrite IH by lia.
Qed.

Lemma paragraphPartsFrom_start (texts : list string) :
  paragraphPartsFrom 0 texts = paragraphParts texts.
Proof.
  unfold paragraphParts.
  destruct texts as [| t0 [| t1 [| t2 rest]]]; try reflexivity.
  cbn [paragraphPartsFrom Z.eqb Z.add Pos.eqb Pos.add Pos.succ app length Nat.leb
       take drop map].
  now rewrite paragraphPartsFrom_plain by lia.
Qed.

Lemma length_cons_positive {A} (x : A) (l : list A) :
  (Z.of_nat (length (x :: l)) >? 0) = true.
Proof. cbn [length]. destruct (Z.gtb_spec (Z.of_nat (S (length l))) 0); lia. Qed.

Lemma length_nil_positive {A} (l : list A) :
  l = [] -> (Z.of_nat (length l) >? 0) = false.
Proof. now intros ->. Qed.

(** The body markup is the markup of the body parts, in their order. *)
Lemma contentHtml_parts (env : Env) (c : Content) :
  contentHtml c
  = Js.join (map (partHtml env)
      ([BodyOpen] ++ paragraphParts (default [] (paragraphs c)) ++
       match present (ingredients c) with
       | Some items => [IngredientsPart items]
       | None => []
       end ++
       match present (steps c) with
       | Some items => [StepsPart items]
       | None => []
       end ++ [AdEndPart; BodyClose])).
Proof.
  unfold contentHtml.
  assert (Hp : match paragraphs c with
               | Some paragraphs_ =>
                   if Z.of_nat (length paragraphs_) >? 0 then
                     Js.forEachIndexed
                       (fun contentHtml para index =>
                          let contentHtml :=
                            contentHtml +:+
                            Js.lit "<p>" +:+ escapeHtml (Some para) +:+ Js.lit "</p>" in
                          if index =? 2 then contentHtml +:+ adMidContent else contentHtml)
                       paragraphs_ 0 (Js.lit "<div class=`post-body`>")
                   else Js.lit "<div class=`post-body`>"
               | None => Js.lit "<div class=`post-body`>"
               end
               = Js.lit "<div class=`post-body`>" +:+
                 Js.join (map (partHtml env) (paragraphParts (default [] (paragraphs c))))).
  { destruct (paragraphs c) as [[| t rest] |]; cbn [default];
      rewrite ?length_cons_positive, ?(length_nil_positive (@nil string)) by reflexivity.
    - now flatten_markup.
    - rewrite <- paragraphPartsFrom_start. apply paragraph_loop.
    - now flatten_markup. }
  cbv zeta in Hp |- *. rewrite Hp. clear Hp.
  set (body0 := Js.lit "<div class=`post-body`>" +:+ _).
  destruct (ingredients c) as [[| i0 irest] |]; destruct (steps c) as [[| s0 srest] |];
    cbn [present];
    rewrite ?length_cons_positive, ?(length_nil_positive (@nil string)) by reflexivity;
    rewrite ?item_loop; subst body0; cbn [map app partHtml]; flatten_markup;
    reflexivity.
Qed.

Lemma headerHtml_parts (env : Env) (post : Post) :
  headerHtml env post
  = partHtml env (TitlePart (title post))
    +:+ partHtml env (MetaPart (category post) (date post)).
Proof. unfold headerHtml, partHtml. now rewrite !string_app_assoc. Qed.

Lemma imageHtml_parts (env : Env) (post : Post) :
  imageHtml post
  = Js.join (map (partHtml env)
      (if Js.truthy (image post) then [ImagePart (image post) (title post)] else [])).
Proof.
  unfold imageHtml. destruct (Js.truthy (image post)); cbn [map partHtml];
    now flatten_markup.
Qed.

(** C7, as the source has it: for a post that has a [content], on a page
    that has the post container, the article holds in this order the header
    with the title before the category and date meta, the featured image if
    there is one, all paragraphs in input order with one advertisement
    placeholder right after the paragraph of index 2 iff there are at least
    three, the labelled ingredients list iff ingredients are present, the
    labelled ordered steps list iff steps are present, and one advertisement
    placeholder at the end of the body. *)
Theorem renderSinglePost_parts (env : Env) (w : World) (post : Post)
    (c : Content) (old : list Node) :
  content post = Some c ->
  postContent w = Some old ->
  renderSinglePost env post w
  = (Ok tt,
     set_postContent
       (Some [Elem "div" "" (Js.join (map (partHtml env) (specParts post c)))]) w).
Proof.
  intros Hc Hp.
  assert (Hhtml : headerHtml env post +:+ imageHtml post +:+ contentHtml c
                  = Js.join (map (partHtml env) (specParts post c))).
  { rewrite headerHtml_parts, (imageHtml_parts env), (contentHtml_parts env).
    unfold specParts. rewrite !map_app, !join_app.
    change (map (partHtml env) [TitlePart (title post); MetaPart (category post) (date post)])
      with [partHtml env (TitlePart (title post));
            partHtml env (MetaPart (category post) (date post))].
    rewrite !join_cons, join_nil, string_app_nil_r, !string_app_assoc.
    reflexivity. }
  unfold renderSinglePost, bind at 1, get. rewrite Hp, Hc.
  unfold bind, modify. rewrite Hhtml. now destruct w.
Qed.

(** The theorem at a full recipe. *)
Lemma renderSinglePost_parts_witness :
  content breadPost = Some breadContent /\
  postContent (emptyPage []) = Some [] /\
  renderSinglePost sampleEnv breadPost (emptyPage [])
  = (Ok tt,
     set_postContent
       (Some [Elem "div" ""
                (Js.join (map (partHtml sampleEnv)
                   [TitlePart "Bread"; MetaPart "Recipes" "2026-01-13";
                    ImagePart (Some "img/bread.jpg") "Bread"; BodyOpen;
                    ParagraphPart "One."; ParagraphPart "Two.";
                    ParagraphPart "Three."; AdMidPart; ParagraphPart "Four.";
                    IngredientsPart ["Flour"; "Water"];
                    StepsPart ["Mix."; "Bake."]; AdEndPart; BodyClose]))])
       (emptyPage [])).
Proof.
  split; [reflexivity |]. split; [reflexivity |].
  exact (renderSinglePost_parts sampleEnv (emptyPage []) breadPost breadContent []
           eq_refl eq_refl).
Defined.

(** C7 as stated fails for a post that has no [content]: the renderer
    throws before it writes, and the post container keeps what it had, with
    no header and no advertisement placeholder. *)
Lemma renderSinglePost_no_content_counterexample :
  content recipeCurrent = None /\
  renderSinglePost sampleEnv recipeCurrent (emptyPage [])
  = (Throw "Cannot read properties of undefined (reading 'paragraphs')",
     emptyPage []) /\
  postContent (renderSinglePost sampleEnv recipeCurrent (emptyPage [])).2 = Some [].
Proof. repeat split. Qed.

(** ** A post without content *)

Lemma errorMarkup_visible (message : string) :
  innerHTML (errorMarkup message) = [Html (errorMarkup message)].
Proof. reflexivity. Qed.

Lemma showError_postContent (message : string) (w : World) (old : list Node) :
  postContent w = Some old ->
  exists w', showError message w = (Ok tt, w') /\
             postContent w' = Some [Html (errorMarkup message)] /\
             postsData w' = postsData w.
Proof.
  intros Hp. unfold showError, bind, get, modify, ret. rewrite Hp.
  rewrite errorMarkup_visible.
  destruct (postsGrid w); eexists; (split; [reflexivity |]); now destruct w.
Qed.

Lemma serializeText_app (s t : string) :
  serializeText (s +:+ t) = serializeText s +:+ serializeText t.
Proof.
  induction s as [| c s IH]; [reflexivity |].
  change (String c s +:+ t) with (String c (s +:+ t)).
  cbn [serializeText]. now rewrite IH, string_app_assoc.
Qed.

Lemma escapeHtml_text (s : string) : escapeHtml (Some s) = serializeText s.
Proof. now destruct s. Qed.

(** The block of [showError] is the error block with the encoded message. *)
Lemma errorMarkup_errorBlock (message : string) :
  errorMarkup message = errorBlock (escapeHtml (Some message)).
Proof. reflexivity. Qed.

(** C9: on a page that has the post container, rendering a post whose
    [content] is absent throws at the read of [post.content.paragraphs] and
    writes nothing; on the dynamic path of [loadSinglePost] the exception is
    caught and the post container ends up holding the error block with the
    text [Error rendering post: ] followed by the message of the exception
    (encoded by [escapeHtml]), never a page without a body. *)
Theorem renderSinglePost_without_content (env : Env) (w : World) (post : Post)
    (old : list Node) :
  content post = None ->
  postContent w = Some old ->
  renderSinglePost env post w = (Throw (typeErrorMessage env "paragraphs"), w) /\
  forall (slug_ : string) (posts : option (list Post)),
    postBodyPresent env = false ->
    preloadedPost env = None ->
    slugParam env = Some slug_ ->
    slug_ <> "" ->
    payload (fetch env (dataPath (cfg env))) = Some posts ->
    List.find (fun p => String.eqb (slug p) slug_) (default [] posts) = Some post ->
    postContent (loadSinglePost env w).2
    = Some [Html (errorBlock ("Error rendering post: "
                              +:+ escapeHtml (Some (typeErrorMessage env "paragraphs"))))].
Proof.
  intros Hc Hp.
  assert (Hthrow : forall w0 old0, postContent w0 = Some old0 ->
            renderSinglePost env post w0 = (Throw (typeErrorMessage env "paragraphs"), w0)).
  { intros w0 old0 H0. unfold renderSinglePost, bind, get. now rewrite H0, Hc. }
  split; [exact (Hthrow w old Hp) |].
  intros slug_ posts Hbody Hpre Hslug Hne Hpay Hfind.
  unfold loadSinglePost. rewrite Hbody, Hpre, Hslug. cbn [orb].
  destruct slug_ as [| ch rest]; [congruence |].
  unfold bind at 1. rewrite (loadPostsData_ok env w posts Hpay). rewrite Hfind.
  unfold bind at 1, modify at 1. unfold bind at 1, tryCatch.
  set (w2 := set_currentPost (Some post) (set_postsData (default [] posts) w)).
  assert (Hp2 : postContent w2 = Some old) by (subst w2; now destruct w).
  rewrite (Hthrow w2 old Hp2).
  destruct (showError_postContent
              ("Error rendering post: " +:+ typeErrorMessage env "paragraphs")
              w2 old Hp2) as (w3 & Hshow & Hp3 & _).
  rewrite Hshow.
  pose proof (renderSidebar_preserves_grid env (default [] posts) w3) as Hfr.
  apply (f_equal snd) in Hfr. cbn [snd] in Hfr. rewrite Hfr, Hp3.
  rewrite errorMarkup_errorBlock, !escapeHtml_text, serializeText_app.
  reflexivity.
Qed.

(** The theorem on the page of a post that has no content. *)
Lemma renderSinglePost_without_content_witness :
  content recipeCurrent = None /\
  postContent (emptyPage []) = Some [] /\
  postContent (loadSinglePost dynamicEnv (emptyPage [])).2
  = Some [Html (errorBlock
      "Error rendering post: Cannot read properties of undefined (reading 'paragraphs')")].
Proof.
  split; [reflexivity |]. split; [reflexivity |].
  refine (proj2 (renderSinglePost_without_content dynamicEnv (emptyPage [])
                   recipeCurrent [] eq_refl eq_refl)
            "bread" (Some [recipeCurrent]) eq_refl eq_refl eq_refl _ eq_refl eq_refl).
  discriminate.
Defined.

(** ** Escaping *)

Lemma fill_app (e : string) (ctx1 ctx2 : list (option string)) :
  fill e (ctx1 ++ ctx2) = fill e ctx1 +:+ fill e ctx2.
Proof. unfold fill. now rewrite map_app, join_app. Qed.

Lemma insertedVia_const (enc : string -> string) (s : string) :
  insertedVia enc (fun _ => s).
Proof. exists [Some s]. intros t. unfold fill. cbn [map]. now flatten_markup. Qed.

Lemma insertedVia_hole (enc : string -> string) : insertedVia enc (fun t => enc t).
Proof. exists [None]. intros t. unfold fill. cbn [map]. now flatten_markup. Qed.

Lemma insertedVia_app (enc f g : string -> string) :
  insertedVia enc f -> insertedVia enc g -> insertedVia enc (fun t => f t +:+ g t).
Proof.
  intros [ctx1 H1] [ctx2 H2]. exists (ctx1 ++ ctx2). intros t.
  now rewrite fill_app, H1, H2.
Qed.

(** Splits a template at its concatenations; what is left is a piece of
    fixed text or the encoded text itself. *)
Ltac plug :=
  repeat match goal with
         | |- insertedVia _ (fun t => @?f t +:+ @?g t) =>
             apply (insertedVia_app _ f g)
         | |- insertedVia _ (fun _ => ?s) => exact (insertedVia_const _ s)
         | |- insertedVia ?enc _ => exact (insertedVia_hole enc)
         end.

Lemma holes_app (ctx1 ctx2 : list (option string)) :
  holes (ctx1 ++ ctx2) = (holes ctx1 + holes ctx2)%nat.
Proof. unfold holes. now rewrite List.filter_app, length_app. Qed.

Lemma shownVia_hole (enc : string -> string) : shownVia enc (fun t => enc t).
Proof.
  exists [None]. split; [cbn; lia |].
  intros t. unfold fill. cbn [map]. now flatten_markup.
Qed.

Lemma shownVia_app_l (enc f g : string -> string) :
  shownVia enc f -> insertedVia enc g -> shownVia enc (fun t => f t +:+ g t).
Proof.
  intros (ctx1 & Hh & H1) [ctx2 H2]. exists (ctx1 ++ ctx2). split.
  - rewrite holes_app. lia.
  - intros t. now rewrite fill_app, H1, H2.
Qed.

Lemma shownVia_app_r (enc f g : string -> string) :
  insertedVia enc f -> shownVia enc g -> shownVia enc (fun t => f t +:+ g t).
Proof.
  intros [ctx1 H1] (ctx2 & Hh & H2). exists (ctx1 ++ ctx2). split.
  - rewrite holes_app. lia.
  - intros t. now rewrite fill_app, H1, H2.
Qed.

Lemma shownVia_ext (enc f g : string -> string) :
  (forall t, g t = f t) -> shownVia enc f -> shownVia enc g.
Proof. intros Hfg (ctx & Hh & H). exists ctx. split; [exact Hh |]. intros t. now rewrite Hfg. Qed.

(** Finds the first place where the template holds the text, and splits
    the rest of the template as [plug] does. *)
Ltac show_plug :=
  lazymatch goal with
  | |- shownVia _ (fun t => @?f t +:+ @?g t) =>
      first [ apply (shownVia_app_l _ f g); [show_plug | plug]
            | apply (shownVia_app_r _ f g); [plug | show_plug] ]
  | |- shownVia _ (fun _ => ?s) => fail
  | |- shownVia ?enc _ => exact (shownVia_hole enc)
  end.

Lemma title_in_card (env : Env) (p : Post) :
  shownVia encoded (fun t => nodeHtml (createPostCard env (with_title t p))).
Proof.
  unfold createPostCard, nodeHtml, encoded.
  cbn [with_title title slug category date excerpt image content].
  destruct (Js.truthy (image p)); show_plug.
Qed.

Lemma title_in_slide (p : Post) (index : Z) :
  shownVia encoded (fun t => carouselSlide (with_title t p) index).
Proof.
  unfold carouselSlide, encoded.
  cbn [with_title title slug category date excerpt image content]. show_plug.
Qed.

Lemma title_in_article (env : Env) (p : Post) (c : Content) :
  shownVia encoded (fun t => articleHtml env (with_title t p) c).
Proof.
  unfold articleHtml, headerHtml, imageHtml, encoded.
  cbn [with_title title slug category date excerpt image content].
  destruct (Js.truthy (image p)); show_plug.
Qed.

Lemma title_in_recent (env : Env) (p : Post) :
  shownVia encoded (fun t => nodeHtml (recentPostItem env (with_title t p))).
Proof.
  unfold recentPostItem, nodeHtml, encoded.
  cbn [with_title title slug category date excerpt image content]. show_plug.
Qed.

Lemma title_in_related (env : Env) (p : Post) :
  shownVia encoded (fun t => relatedPostCard env (with_title t p)).
Proof.
  unfold relatedPostCard, encoded.
  cbn [with_title title slug category date excerpt image content]. show_plug.
Qed.

Lemma category_in_card (env : Env) (p : Post) :
  shownVia encoded (fun t => nodeHtml (createPostCard env (with_category t p))).
Proof.
  unfold createPostCard, nodeHtml, encoded.
  cbn [with_category title slug category date excerpt image content].
  destruct (Js.truthy (image p)); show_plug.
Qed.

Lemma category_in_article (env : Env) (p : Post) (c : Content) :
  shownVia encoded (fun t => articleHtml env (with_category t p) c).
Proof.
  unfold articleHtml, headerHtml, imageHtml, encoded.
  cbn [with_category title slug category date excerpt image content].
  destruct (Js.truthy (image p)); show_plug.
Qed.

Lemma category_in_related (env : Env) (p : Post) :
  shownVia encoded (fun t => relatedPostCard env (with_category t p)).
Proof.
  unfold relatedPostCard, encoded.
  cbn [with_category title slug category date excerpt image content]. show_plug.
Qed.

Lemma excerpt_in_card (env : Env) (p : Post) :
  shownVia (fun t => escapeHtml (truncateText (Some t) 150))
    (fun t => nodeHtml (createPostCard env (with_excerpt t p))).
Proof.
  unfold createPostCard, nodeHtml.
  cbn [with_excerpt title slug category date excerpt image content].
  change (excerptLength (cfg env)) with 150.
  destruct (Js.truthy (image p)); show_plug.
Qed.

Lemma orElse_empty (t : string) : Js.orElse (Some t) "" = t.
Proof. now destruct t. Qed.

Lemma excerpt_in_slide (p : Post) (index : Z) :
  shownVia (fun t => Js.substring (encoded t) 0 150)
    (fun t => carouselSlide (with_excerpt t p) index).
Proof.
  unfold carouselSlide, encoded.
  cbn [with_excerpt title slug category date excerpt image content].
  eapply shownVia_ext.
  - intros t. match goal with |- _ = ?r => set (rhs := r) end.
    rewrite orElse_empty. subst rhs. reflexivity.
  - cbv beta. show_plug.
Qed.

(** The slug reaches the markup as it is. *)
Lemma slug_in_slide (p : Post) (index : Z) :
  shownVia (fun t => t) (fun t => carouselSlide (with_slug t p) index).
Proof.
  unfold carouselSlide.
  cbn [with_slug title slug category date excerpt image content]. show_plug.
Qed.

Lemma slug_in_related (env : Env) (p : Post) :
  shownVia (fun t => t) (fun t => relatedPostCard env (with_slug t p)).
Proof.
  unfold relatedPostCard.
  cbn [with_slug title slug category date excerpt image content]. show_plug.
Qed.

Lemma slug_in_card (env : Env) (p : Post) :
  shownVia (fun t => t) (fun t => nodeHtml (createPostCard env (with_slug t p))).
Proof.
  unfold createPostCard, nodeHtml, getLinkPath.
  cbn [with_slug title slug category date excerpt image content String.eqb Ascii.eqb
       Bool.eqb].
  destruct (Js.truthy (image p)); destruct (Js.includes (pathname env) "/posts/"); show_plug.
Qed.

Lemma list_ascii_app (s t : string) :
  list_ascii_of_string (s +:+ t) = list_ascii_of_string s ++ list_ascii_of_string t.
Proof.
  induction s as [| c s IH]; [reflexivity |].
  change (c :: list_ascii_of_string (s +:+ t)
          = c :: (list_ascii_of_string s ++ list_ascii_of_string t)).
  now rewrite IH.
Qed.

Lemma serializeText_no_angle (s : string) (ch : ascii) :
  In ch (list_ascii_of_string (serializeText s)) -> ch <> "<"%char /\ ch <> ">"%char.
Proof.
  induction s as [| c s IH]; [intros [] |].
  cbn [serializeText]. rewrite list_ascii_app, in_app_iff.
  intros [Hhead | Htail]; [| now apply IH].
  destruct (Ascii.eqb_spec c "&"); [| destruct (Ascii.eqb_spec c (ascii_of_nat 160));
    [| destruct (Ascii.eqb_spec c "<"); [| destruct (Ascii.eqb_spec c ">")]]];
    cbn [list_ascii_of_string In] in Hhead;
    repeat (destruct Hhead as [<- | Hhead]; [split; congruence |]);
    destruct Hhead.
Qed.

Lemma escapeHtml_no_angle (text : option string) (ch : ascii) :
  In ch (list_ascii_of_string (escapeHtml text)) -> ch <> "<"%char /\ ch <> ">"%char.
Proof.
  destruct text as [[| c s] |]; try (intros []).
  apply serializeText_no_angle.
Qed.

Lemma fill_cons (e : string) (piece : option string) (ctx : list (option string)) :
  fill e (piece :: ctx)
  = match piece with Some s => s | None => e end +:+ fill e ctx.
Proof. unfold fill. cbn [map]. now rewrite join_cons. Qed.

Lemma fill_length (e : string) (ctx : list (option string)) :
  String.length (fill e ctx) = (fixedLength ctx + holes ctx * String.length e)%nat.
Proof.
  induction ctx as [| [s |] ctx IH]; [reflexivity | |];
    rewrite fill_cons, string_app_length, IH;
    unfold fixedLength, holes, list_sum; cbn [map fold_right List.filter length]; lia.
Qed.

(** A text shown as it is is not shown encoded: the two fillings of a
    context differ in length at the text [<]. *)
Lemma shownVia_verbatim_not_encoded (f : string -> string) :
  shownVia (fun t => t) f -> ~ insertedVia encoded f.
Proof.
  intros (ctx & Hh & H) [ctx' H'].
  pose proof (f_equal String.length (H "")) as H0.
  pose proof (f_equal String.length (H "a")) as H1.
  pose proof (f_equal String.length (H "<")) as H2.
  rewrite (H' "") in H0. rewrite (H' "a") in H1. rewrite (H' "<") in H2.
  rewrite !fill_length in H0, H1, H2.
  change (String.length (encoded "")) with 0%nat in H0.
  change (String.length (encoded "a")) with 1%nat in H1.
  change (String.length (encoded "<")) with 4%nat in H2.
  cbn [String.length] in H0, H1, H2. lia.
Qed.

(** Serialization leaves the double quote as it is. *)
Lemma serializeText_dquote (s : string) :
  In Js.dquote (list_ascii_of_string (serializeText s))
  <-> In Js.dquote (list_ascii_of_string s).
Proof.
  induction s as [| c s IH]; [reflexivity |].
  cbn [serializeText]. rewrite list_ascii_app, in_app_iff, IH.
  cbn [list_ascii_of_string In].
  assert (Hhead : In Js.dquote (list_ascii_of_string
            (if Ascii.eqb c "&" then "&amp;"
             else if Ascii.eqb c (ascii_of_nat 160) then "&nbsp;"
             else if Ascii.eqb c "<" then "&lt;"
             else if Ascii.eqb c ">" then "&gt;"
             else String c EmptyString)) <-> c = Js.dquote).
  { destruct (Ascii.eqb_spec c "&") as [-> | _];
      [| destruct (Ascii.eqb_spec c (ascii_of_nat 160)) as [-> | _];
         [| destruct (Ascii.eqb_spec c "<") as [-> | _];
            [| destruct (Ascii.eqb_spec c ">") as [-> | _]]]];
      cbn [list_ascii_of_string In]; (split; [| try discriminate]).
    all: try (intros H; repeat (destruct H as [H | H]; [discriminate H |]);
              now destruct H).
    intros H. now left. }
  rewrite Hhead. reflexivity.
Qed.

(** C4 as stated fails for the category, on an ordinary dataset: the
    sidebar holds the category [Soups & Stews] encoded as the text of its
    link and, lower-cased but not encoded, in the [href] of that link.  The
    URL of the image fails likewise in the carousel slide, which holds it as
    it is where the post card holds it encoded; and a title with a double
    quote ends the [alt] attribute it stands in, since the encoding leaves
    quotes alone. *)
Lemma fields_not_encoded_counterexample :
  categoryList (renderCategories sampleEnv [stewPost] (emptyPage [])).2
  = Some [Elem "li" ""
            (Js.lit "<a href=`index.html#soups & stews`>Soups &amp; Stews (1)</a>")] /\
  encoded "soups & stews" = "soups &amp; stews" /\
  Js.includes (carouselSlide stewPost 0) (Js.lit "src=`img/stew.jpg?w=1&h=2`") = true /\
  Js.includes (carouselSlide stewPost 0) (Js.lit "src=`img/stew.jpg?w=1&amp;h=2`")
  = false /\
  Js.includes (nodeHtml (createPostCard sampleEnv stewPost))
    (Js.lit "src=`img/stew.jpg?w=1&amp;h=2`") = true /\
  Js.includes (carouselSlide (with_title quotedTitle stewPost) 0)
    (Js.lit "alt=`a` onload=`alert(1)`") = true.
Proof. repeat split; vm_compute; reflexivity. Qed.

Lemma paragraphPartsFrom_app (i : Z) (l1 l2 : list string) :
  paragraphPartsFrom i (l1 ++ l2)
  = paragraphPartsFrom i l1 ++ paragraphPartsFrom (i + Z.of_nat (length l1)) l2.
Proof.
  revert i. induction l1 as [| t l1 IH]; intros i.
  - cbn [app length Z.of_nat paragraphPartsFrom]. now rewrite Z.add_0_r.
  - cbn [app paragraphPartsFrom length]. rewrite IH. f_equal.
    rewrite <- app_assoc. f_equal.
    replace (i + 1 + Z.of_nat (length l1)) with (i + Z.of_nat (S (length l1))) by lia.
    reflexivity.
Qed.

Lemma present_middle (before after : list string) (t : string) :
  present (Some (before ++ t :: after)) = Some (before ++ t :: after).
Proof. now destruct before. Qed.

Lemma paragraph_in_body (c : Content) (before after : list string) :
  shownVia encoded
    (fun t => contentHtml (with_paragraphs (before ++ t :: after) c)).
Proof.
  unfold encoded. eapply shownVia_ext.
  - intros t. match goal with |- _ = ?r => set (rhs := r) end.
    rewrite (contentHtml_parts sampleEnv).
    cbn [with_paragraphs paragraphs ingredients steps default from_option id].
    rewrite <- paragraphPartsFrom_start, paragraphPartsFrom_app.
    cbn [paragraphPartsFrom]. rewrite !map_app. cbn [map]. rewrite !join_app, !join_cons.
    cbn [partHtml]. subst rhs. reflexivity.
  - cbv beta. show_plug.
Qed.

Lemma ingredient_in_body (c : Content) (before after : list string) :
  shownVia encoded
    (fun t => contentHtml (with_ingredients (before ++ t :: after) c)).
Proof.
  unfold encoded. eapply shownVia_ext.
  - intros t. match goal with |- _ = ?r => set (rhs := r) end.
    rewrite (contentHtml_parts sampleEnv).
    cbn [with_ingredients paragraphs ingredients steps].
    rewrite present_middle, !map_app. cbn [map]. rewrite !join_app, !join_cons.
    cbn [partHtml]. rewrite !map_app. cbn [map]. rewrite !join_app, !join_cons.
    subst rhs. reflexivity.
  - cbv beta. show_plug.
Qed.

Lemma step_in_body (c : Content) (before after : list string) :
  shownVia encoded
    (fun t => contentHtml (with_steps (before ++ t :: after) c)).
Proof.
  unfold encoded. eapply shownVia_ext.
  - intros t. match goal with |- _ = ?r => set (rhs := r) end.
    rewrite (contentHtml_parts sampleEnv).
    cbn [with_steps paragraphs ingredients steps].
    rewrite present_middle, !map_app. cbn [map]. rewrite !join_app, !join_cons.
    cbn [partHtml]. rewrite !map_app. cbn [map]. rewrite !join_app, !join_cons.
    subst rhs. reflexivity.
  - cbv beta. show_plug.
Qed.

Lemma forEach_append_categoryList {A} (f : A -> Node) (l : list A) (w : World)
    (g : list Node) :
  categoryList w = Some g ->
  forEach l (fun x =>
      modify (fun w => set_categoryList
                (option_map (fun c => c ++ [f x]) (categoryList w)) w)) w
  = (Ok tt, set_categoryList (Some (g ++ map f l)) w).
Proof.
  revert w g. induction l as [| x l IH]; intros w g Hg; cbn [forEach map].
  - unfold ret. rewrite app_nil_r, <- Hg. now destruct w.
  - unfold bind, modify at 1.
    rewrite (IH _ (g ++ [f x])).
    + rewrite <- app_assoc. now destruct w.
    + rewrite Hg. now destruct w.
Qed.

(** The slug in the recent-posts item of the sidebar. *)
Lemma slug_in_recent (env : Env) (p : Post) :
  shownVia (fun t => t) (fun t => nodeHtml (recentPostItem env (with_slug t p))).
Proof.
  unfold recentPostItem, nodeHtml, getLinkPath.
  cbn [with_slug title slug category date excerpt image content String.eqb Ascii.eqb
       Bool.eqb].
  destruct (Js.includes (pathname env) "/posts/"); show_plug.
Qed.

(** The URL of the image, when there is one. *)
Lemma image_in_card (env : Env) (p : Post) (ch : ascii) :
  shownVia (fun t => encoded (String ch t))
    (fun t => nodeHtml (createPostCard env (with_image (String ch t) p))).
Proof.
  unfold createPostCard, nodeHtml, encoded.
  cbn [with_image title slug category date excerpt image content Js.truthy].
  show_plug.
Qed.

Lemma image_in_article (env : Env) (p : Post) (c : Content) (ch : ascii) :
  shownVia (fun t => encoded (String ch t))
    (fun t => articleHtml env (with_image (String ch t) p) c).
Proof.
  unfold articleHtml, headerHtml, imageHtml, encoded.
  cbn [with_image title slug category date excerpt image content Js.truthy].
  show_plug.
Qed.

Lemma image_in_related (env : Env) (p : Post) (ch : ascii) :
  shownVia (fun t => encoded (String ch t))
    (fun t => relatedPostCard env (with_image (String ch t) p)).
Proof.
  unfold relatedPostCard, encoded.
  cbn [with_image title slug category date excerpt image content Js.orElse].
  show_plug.
Qed.

(** The items of the category list: the link leads to the lower-cased
    category, not encoded, and shows the encoded category and the count. *)
Lemma renderCategories_items (env : Env) (posts : list Post) (w : World)
    (old : list Node) :
  categoryList w = Some old ->
  categoryList (renderCategories env posts w).2
  = Some (map (fun c =>
            Elem "li" ""
              (Js.lit "<a href=`" +:+
               (if Js.includes (pathname env) "/posts/"
                then "../index.html" else "index.html") +:+
               "#" +:+ Js.toLowerCase c +:+ Js.lit "`>" +:+
               encoded c +:+ " (" +:+ Js.ofZ (categoryCount posts c) +:+ ")</a>"))
         (Js.uniq (map category posts))).
Proof.
  intros Hc. unfold renderCategories, bind at 1, get. rewrite Hc.
  unfold bind, modify at 1. cbv zeta.
  rewrite (forEach_append_categoryList _ (Js.uniq (map category posts)) _ [])
    by now destruct w.
  cbn [snd categoryList set_categoryList app]. f_equal.
  apply map_ext. intros c. f_equal.
  unfold getLinkPath, encoded, categoryCount.
  cbn [String.eqb Ascii.eqb Bool.eqb].
  now rewrite !string_app_assoc.
Qed.

(** C4, as the source has it: [escapeHtml] serializes a text node, so the
    encoded text holds no angle bracket, and it holds a double quote exactly
    when the text does; the script of the injection test becomes plain
    entities, an inert text.  The title is shown in every render target
    (post card, carousel slide, single post, sidebar, related posts) and
    only in that encoded form; so are the category in the post card, the
    single post, the related-posts card and the text of the sidebar link,
    the excerpt in the post card (truncated, then encoded) and in the
    carousel slide (encoded, then cut to 150 characters), every paragraph,
    ingredient and step of the single post, and the URL of the image in the
    post card, the single post and the related-posts card.  Not encoded are
    the category in the [href] of the sidebar link, where it stands
    lower-cased, and the slug, which the post card, the carousel slide, the
    related-posts card and the recent-posts item show as it is. *)
Theorem texts_inserted_encoded (env : Env) (p : Post) (c : Content) (index : Z) :
  (forall text ch,
     In ch (list_ascii_of_string (escapeHtml text)) ->
     ch <> "<"%char /\ ch <> ">"%char) /\
  (forall t, In Js.dquote (list_ascii_of_string (encoded t))
             <-> In Js.dquote (list_ascii_of_string t)) /\
  encoded scriptText = "&lt;script&gt;alert(1)&lt;/script&gt;" /\
  inert (encoded scriptText) /\
  (shownVia encoded (fun t => nodeHtml (createPostCard env (with_title t p))) /\
   shownVia encoded (fun t => carouselSlide (with_title t p) index) /\
   shownVia encoded (fun t => articleHtml env (with_title t p) c) /\
   shownVia encoded (fun t => nodeHtml (recentPostItem env (with_title t p))) /\
   shownVia encoded (fun t => relatedPostCard env (with_title t p))) /\
  (shownVia encoded (fun t => nodeHtml (createPostCard env (with_category t p))) /\
   shownVia encoded (fun t => articleHtml env (with_category t p) c) /\
   shownVia encoded (fun t => relatedPostCard env (with_category t p)) /\
   forall posts w old,
     categoryList w = Some old ->
     categoryList (renderCategories env posts w).2
     = Some (map (fun category_ =>
               Elem "li" ""
                 (Js.lit "<a href=`" +:+
                  (if Js.includes (pathname env) "/posts/"
                   then "../index.html" else "index.html") +:+
                  "#" +:+ Js.toLowerCase category_ +:+ Js.lit "`>" +:+
                  encoded category_ +:+ " (" +:+
                  Js.ofZ (categoryCount posts category_) +:+ ")</a>"))
            (Js.uniq (map category posts)))) /\
  (shownVia (fun t => escapeHtml (truncateText (Some t) 150))
     (fun t => nodeHtml (createPostCard env (with_excerpt t p))) /\
   shownVia (fun t => Js.substring (encoded t) 0 150)
     (fun t => carouselSlide (with_excerpt t p) index)) /\
  (forall before after,
     shownVia encoded
       (fun t => articleHtml env p (with_paragraphs (before ++ t :: after) c)) /\
     shownVia encoded
       (fun t => articleHtml env p (with_ingredients (before ++ t :: after) c)) /\
     shownVia encoded
       (fun t => articleHtml env p (with_steps (before ++ t :: after) c))) /\
  (forall ch,
     shownVia (fun t => encoded (String ch t))
       (fun t => nodeHtml (createPostCard env (with_image (String ch t) p))) /\
     shownVia (fun t => encoded (String ch t))
       (fun t => articleHtml env (with_image (String ch t) p) c) /\
     shownVia (fun t => encoded (String ch t))
       (fun t => relatedPostCard env (with_image (String ch t) p))) /\
  ((shownVia (fun t => t) (fun t => nodeHtml (createPostCard env (with_slug t p))) /\
    shownVia (fun t => t) (fun t => carouselSlide (with_slug t p) index) /\
    shownVia (fun t => t) (fun t => relatedPostCard env (with_slug t p)) /\
    shownVia (fun t => t) (fun t => nodeHtml (recentPostItem env (with_slug t p)))) /\
   (~ insertedVia encoded (fun t => nodeHtml (createPostCard env (with_slug t p))) /\
    ~ insertedVia encoded (fun t => carouselSlide (with_slug t p) index) /\
    ~ insertedVia encoded (fun t => relatedPostCard env (with_slug t p)) /\
    ~ insertedVia encoded (fun t => nodeHtml (recentPostItem env (with_slug t p))))).
Proof.
  split; [exact escapeHtml_no_angle |].
  split; [intros t; unfold encoded; rewrite escapeHtml_text; apply serializeText_dquote |].
  split; [reflexivity |].
  split.
  { intros ch Hin. vm_compute in Hin.
    repeat (destruct Hin as [<- | Hin]; [repeat split; discriminate |]).
    destruct Hin. }
  split.
  { repeat split; [apply title_in_card | apply title_in_slide | apply title_in_article
                  | apply title_in_recent | apply title_in_related]. }
  split.
  { split; [apply category_in_card |]. split; [apply category_in_article |].
    split; [apply category_in_related |]. apply renderCategories_items. }
  split; [split; [apply excerpt_in_card | apply excerpt_in_slide] |].
  split.
  { intros before after. unfold articleHtml.
    repeat split;
      (apply (shownVia_app_r _ (fun _ => headerHtml env p) _);
       [apply insertedVia_const |];
       apply (shownVia_app_r _ (fun _ => imageHtml p) _);
       [apply insertedVia_const |]);
      [apply paragraph_in_body | apply ingredient_in_body | apply step_in_body]. }
  split.
  { intros ch. repeat split;
      [apply image_in_card | apply image_in_article | apply image_in_related]. }
  split.
  - repeat split; [apply slug_in_card | apply slug_in_slide | apply slug_in_related
                  | apply slug_in_recent].
  - repeat split; apply shownVia_verbatim_not_encoded;
      [apply slug_in_card | apply slug_in_slide | apply slug_in_related
      | apply slug_in_recent].
Qed.

(** * Further properties of the source *)

(** ** Escaping *)

Lemma escapeHtml_serializeText (s : string) : escapeHtml (Some s) = serializeText s.
Proof. now destruct s. Qed.

Lemma serializeText_cons (c : ascii) (s : string) :
  serializeText (String c s)
  = (if Ascii.eqb c "&" then "&amp;"
     else if Ascii.eqb c (ascii_of_nat 160) then "&nbsp;"
     else if Ascii.eqb c "<" then "&lt;"
     else if Ascii.eqb c ">" then "&gt;"
     else String c EmptyString) +:+ serializeText s.
Proof. reflexivity. Qed.

Lemma string_cons_app (c : ascii) (s t : string) :
  String c s +:+ t = String c (s +:+ t).
Proof. reflexivity. Qed.

(** Case analysis on what serialization does with one character. *)
Ltac serialized_head c :=
  rewrite (serializeText_cons c);
  destruct (Ascii.eqb_spec c "&") as [-> | ?];
  [| destruct (Ascii.eqb_spec c (ascii_of_nat 160)) as [-> | ?];
     [| destruct (Ascii.eqb_spec c "<") as [-> | ?];
        [| destruct (Ascii.eqb_spec c ">") as [-> | ?]]]].

Lemma serializeText_injective (s1 s2 : string) :
  serializeText s1 = serializeText s2 -> s1 = s2.
Proof.
  revert s2. induction s1 as [| c1 s1 IH]; intros [| c2 s2].
  - reflexivity.
  - serialized_head c2; discriminate.
  - serialized_head c1; discriminate.
  - serialized_head c1; serialized_head c2;
      rewrite ?string_cons_app, ?string_app_nil_l; intros H;
      try (injection H as H; try congruence);
      try discriminate H;
      repeat match goal with
             | E : String _ _ = String _ _ |- _ => injection E as E; try congruence
             end;
      try (f_equal; [congruence | now apply IH]);
      try (f_equal; now apply IH).
Qed.

(** X1: [escapeHtml] loses nothing: two texts with the same encoding are
    the same text. *)
Theorem escapeHtml_injective (s1 s2 : string) :
  escapeHtml (Some s1) = escapeHtml (Some s2) -> s1 = s2.
Proof. rewrite !escapeHtml_serializeText. apply serializeText_injective. Qed.

(** The theorem at two texts that differ only in an ampersand entity. *)
Lemma escapeHtml_injective_witness :
  escapeHtml (Some "a&b") = escapeHtml (Some "a&b") /\ "a&b" = "a&b".
Proof.
  split; [reflexivity |].
  exact (escapeHtml_injective "a&b" "a&b" eq_refl).
Defined.

Lemma serializeText_length (s : string) :
  (String.length s <= String.length (serializeText s))%nat.
Proof.
  induction s as [| c s IH]; [reflexivity |].
  serialized_head c; rewrite string_app_length; cbn [String.length]; lia.
Qed.

(** X2: [escapeHtml] changes a text iff the text holds an ampersand, a
    no-break space or an angle bracket; every other character, the single
    and the double quote among them, passes as it is. *)
Theorem escapeHtml_unchanged_iff (t : string) :
  (escapeHtml (Some t) = t <-> plain t) /\
  isSpecial Js.dquote = false /\ isSpecial "'" = false.
Proof.
  split; [| split; reflexivity].
  rewrite escapeHtml_serializeText. unfold plain.
  induction t as [| c t IH].
  - split; [intros _ ch [] | reflexivity].
  - split.
    + intros H.
      assert (Hlen := serializeText_length t).
      revert H. serialized_head c; rewrite ?string_cons_app, ?string_app_nil_l;
        intros H; try discriminate H.
      * injection H as H. apply (f_equal String.length) in H.
        rewrite ?string_cons_app in H. cbn [String.length] in H.
        rewrite ?string_app_nil_l in H. lia.
      * injection H as H. intros ch [<- | Hin].
        -- unfold isSpecial.
           destruct (Ascii.eqb_spec c "&"); [congruence |].
           destruct (Ascii.eqb_spec c (ascii_of_nat 160)); [congruence |].
           destruct (Ascii.eqb_spec c "<"); [congruence |].
           destruct (Ascii.eqb_spec c ">"); [congruence | reflexivity].
        -- now apply (proj1 IH).
    + intros H.
      assert (Hc : isSpecial c = false) by (apply H; now left).
      assert (Ht : serializeText t = t).
      { apply IH. intros ch Hin. apply H. now right. }
      rewrite serializeText_cons, Ht. unfold isSpecial in Hc.
      destruct (Ascii.eqb c "&"); [discriminate |].
      destruct (Ascii.eqb c (ascii_of_nat 160)); [discriminate |].
      destruct (Ascii.eqb c "<"); [discriminate |].
      destruct (Ascii.eqb c ">"); [discriminate | reflexivity].
Qed.

(** ** Error blocks *)

Lemma showError_run (message : string) (w : World) :
  showError message w
  = (Ok tt,
     set_postContent
       (option_map (fun _ => [Html (errorMarkup message)]) (postContent w))
       (set_postsGrid
          (option_map (fun _ => [Html (errorMarkup message)]) (postsGrid w)) w)).
Proof.
  unfold showError, bind, get, modify, ret. rewrite errorMarkup_visible.
  destruct w as [? ? ? ? ? ? [g |] [pc |] ? ? ? ? ? ?]; reflexivity.
Qed.

(** X3: [showError] never throws; it puts the same block into the grid and
    into the post container, each where the page has it, and touches
    nothing else; the block is the error block with the message in the form
    [escapeHtml] gives it, which holds no angle bracket. *)
Theorem showError_writes_encoded (message : string) (w : World) :
  showError message w
  = (Ok tt,
     set_postContent
       (option_map (fun _ => [Html (errorBlock (escapeHtml (Some message)))])
          (postContent w))
       (set_postsGrid
          (option_map (fun _ => [Html (errorBlock (escapeHtml (Some message)))])
             (postsGrid w)) w)) /\
  (forall ch, In ch (list_ascii_of_string (escapeHtml (Some message))) ->
              ch <> "<"%char /\ ch <> ">"%char).
Proof.
  split; [exact (showError_run message w) | apply escapeHtml_no_angle].
Qed.

(** X4: the block that [loadPostsData] writes on a failed load holds the
    error message as it is, not in encoded form. *)
Theorem loadErrorMarkup_message_verbatim (env : Env) :
  insertedVia (fun message => message) (loadErrorMarkup env) /\
  ~ insertedVia encoded (loadErrorMarkup env).
Proof.
  split.
  - unfold loadErrorMarkup. plug.
  - intros [ctx H].
    pose proof (f_equal String.length (H "")) as H0.
    pose proof (f_equal String.length (H "<")) as H1.
    rewrite fill_length in H0, H1. unfold loadErrorMarkup in H0, H1.
    rewrite !string_app_length in H0, H1.
    change (String.length (encoded "")) with 0%nat in H0.
    change (String.length (encoded "<")) with 4%nat in H1.
    change (String.length "") with 0%nat in H0.
    change (String.length "<") with 1%nat in H1.
    lia.
Qed.

(** ** Data loading *)

Lemma loadPostsIndex_ok (env : Env) (w : World) (posts : option (list Post)) :
  payload (fetch env (indexPath (cfg env))) = Some posts ->
  loadPostsIndex env w = (Ok (default [] posts), set_postsData (default [] posts) w).
Proof.
  intros H. unfold loadPostsIndex, tryCatch.
  destruct (fetch env (indexPath (cfg env))) as [e | [|] st [e | [| ps]]];
    try discriminate H.
  injection H as <-. reflexivity.
Qed.

Lemma loadPostsIndex_fallback (env : Env) (w : World) :
  payload (fetch env (indexPath (cfg env))) = None ->
  loadPostsIndex env w = loadPostsData env w.
Proof.
  intros H.
  assert (Hok : exists a w', loadPostsData env w = (Ok a, w')).
  { destruct (payload (fetch env (dataPath (cfg env)))) as [posts |] eqn:E.
    - rewrite (loadPostsData_ok env w posts E). eauto.
    - rewrite (loadPostsData_failed env w E). eauto. }
  destruct Hok as (a & w' & Hok).
  unfold loadPostsIndex, tryCatch.
  destruct (fetch env (indexPath (cfg env))) as [e | [|] st [e | [| ps]]];
    try discriminate H; cbn [negb]; unfold throw; rewrite ?Hok; reflexivity.
Qed.

(** X5: neither loader ever throws.  When a fetch delivers a payload the
    returned sequence is the new [postsData]; when none does, the loader
    returns the empty sequence while [postsData] keeps the posts it held
    before. *)
Theorem loaders_never_throw (env : Env) (w : World) :
  exists posts w',
    loadPostsIndex env w = (Ok posts, w') /\
    match payload (fetch env (indexPath (cfg env))),
          payload (fetch env (dataPath (cfg env))) with
    | Some ps, _ => posts = default [] ps /\ postsData w' = posts
    | None, Some ps => posts = default [] ps /\ postsData w' = posts
    | None, None => posts = [] /\ postsData w' = postsData w
    end.
Proof.
  destruct (payload (fetch env (indexPath (cfg env)))) as [ps |] eqn:Ei.
  - rewrite (loadPostsIndex_ok env w ps Ei). eexists _, _. split; [reflexivity |].
    split; [reflexivity | now destruct w].
  - rewrite (loadPostsIndex_fallback env w Ei).
    destruct (payload (fetch env (dataPath (cfg env)))) as [ps |] eqn:Ed.
    + rewrite (loadPostsData_ok env w ps Ed). eexists _, _. split; [reflexivity |].
      split; [reflexivity | now destruct w].
    + rewrite (loadPostsData_failed env w Ed). eexists _, _. split; [reflexivity |].
      split; [reflexivity |]. destruct (postsGrid w); now destruct w.
Qed.

(** ** Related posts *)

Lemma slice_prefix {A} (l : list A) (n : Z) :
  0 <= n -> Js.slice l 0 n = take (Z.to_nat n) l.
Proof.
  intros Hn. unfold Js.slice.
  destruct (Z.ltb_spec 0 0); [lia |]. destruct (Z.ltb_spec n 0); [lia |].
  replace (Z.to_nat (Z.min 0 (Z.of_nat (length l)))) with 0%nat by lia.
  cbn [drop].
  destruct (Z.le_gt_cases n (Z.of_nat (length l))).
  - f_equal. lia.
  - rewrite (take_ge l (Z.to_nat n)) by lia. apply take_ge. lia.
Qed.

Lemma filter_elem_of {A} (f : A -> bool) (l : list A) (x : A) :
  x ∈ List.filter f l <-> x ∈ l /\ f x = true.
Proof. rewrite !list_elem_of_In. apply filter_In. Qed.

Lemma filter_NoDup {A} (f : A -> bool) (l : list A) :
  NoDup l -> NoDup (List.filter f l).
Proof.
  induction 1 as [| x l Hx Hl IH]; cbn [List.filter]; [constructor |].
  destruct (f x); [| exact IH].
  constructor; [| exact IH]. rewrite filter_elem_of. tauto.
Qed.

(** The two filters of [renderRelatedPosts]. *)
Lemma related_cases (currentPost_ : Post) (allPosts : list Post) :
  let sameCategory :=
    List.filter (fun p =>
      String.eqb (category p) (category currentPost_) &&
      negb (String.eqb (slug p) (slug currentPost_))) allPosts in
  let others :=
    List.filter (fun p => negb (String.eqb (slug p) (slug currentPost_))) allPosts in
  related currentPost_ allPosts
  = if (length sameCategory <? 3)%nat then take 3 (sameCategory ++ others)
    else take 3 sameCategory.
Proof.
  cbv zeta. unfold related.
  set (sc := List.filter _ allPosts). set (ot := List.filter _ allPosts).
  rewrite !slice_prefix by lia.
  destruct (Z.ltb_spec (Z.of_nat (length sc)) 3);
    destruct (Nat.ltb_spec (length sc) 3); try lia; reflexivity.
Qed.

(** Size and members of the selection of [renderRelatedPosts]. *)
Lemma related_selection (currentPost_ : Post) (allPosts : list Post) :
  (length (related currentPost_ allPosts) <= 3)%nat /\
  (forall p, p ∈ related currentPost_ allPosts ->
             p ∈ allPosts /\ slug p <> slug currentPost_) /\
  (related currentPost_ allPosts = [] <->
   forall p, p ∈ allPosts -> slug p = slug currentPost_).
Proof.
  rewrite related_cases. cbv zeta.
  set (sc := List.filter _ allPosts). set (ot := List.filter _ allPosts).
  assert (Hsc : forall p, p ∈ sc -> p ∈ allPosts /\ slug p <> slug currentPost_).
  { intros p Hp. apply filter_elem_of in Hp as [Hin Hf]. split; [exact Hin |].
    apply andb_true_iff in Hf as [_ Hf]. apply negb_true_iff in Hf.
    now apply String.eqb_neq. }
  assert (Hot : forall p, p ∈ ot <-> p ∈ allPosts /\ slug p <> slug currentPost_).
  { intros p. unfold ot. rewrite filter_elem_of, negb_true_iff.
    now rewrite String.eqb_neq. }
  assert (Hsub : forall p, p ∈ sc -> p ∈ ot).
  { intros p Hp. apply Hot. now apply Hsc. }
  split; [| split].
  - destruct (length sc <? 3)%nat; rewrite length_take; lia.
  - intros p Hp. apply Hot.
    destruct (length sc <? 3)%nat; apply elem_of_take in Hp as (i & Hp & _);
      apply list_elem_of_lookup_2 in Hp.
    + apply elem_of_app in Hp as [Hp | Hp]; [now apply Hsub | exact Hp].
    + now apply Hsub.
  - split.
    + intros Hnil p Hp. destruct (String.eqb_spec (slug p) (slug currentPost_)) as [| Hne];
        [assumption | exfalso].
      assert (Hin : p ∈ ot) by now apply Hot.
      destruct (Nat.ltb_spec (length sc) 3).
      * assert (E : sc ++ ot = []).
        { destruct (sc ++ ot) as [| x l]; [reflexivity | discriminate Hnil]. }
        apply app_eq_nil in E as [_ E]. rewrite E in Hin.
        now apply not_elem_of_nil in Hin.
      * assert (E : sc = []).
        { destruct sc as [| x l]; [reflexivity | discriminate Hnil]. }
        rewrite E in *. cbn in *. lia.
    + intros Hall.
      assert (Hempty : ot = []).
      { apply elem_of_nil_inv. intros x Hx.
        apply Hot in Hx as [Hx Hne]. now apply Hne, Hall. }
      assert (Hsc0 : sc = []).
      { apply elem_of_nil_inv. intros x Hx. apply Hsub in Hx.
        rewrite Hempty in Hx. now apply not_elem_of_nil in Hx. }
      rewrite Hsc0, Hempty. reflexivity.
Qed.

(** X6: the related posts are at most three, each is a post of the sequence
    other than the current one (by slug), and there is none exactly when the
    sequence holds no post other than the current one. *)
Theorem related_bounds (currentPost_ : Post) (allPosts : list Post) :
  (length (related currentPost_ allPosts) <= 3)%nat /\
  (forall p, p ∈ related currentPost_ allPosts ->
             p ∈ allPosts /\ slug p <> slug currentPost_) /\
  (related currentPost_ allPosts = [] <->
   forall p, p ∈ allPosts -> slug p = slug currentPost_).
Proof. exact (related_selection currentPost_ allPosts). Qed.

(** X7: when at least three other posts share the category of the current
    post, the related posts are the first three of them in the order of the
    sequence, all of that category, and no post appears twice if none does
    in the sequence. *)
Theorem related_enough_same_category (currentPost_ : Post) (allPosts : list Post) :
  let sameCategory :=
    List.filter (fun p =>
      String.eqb (category p) (category currentPost_) &&
      negb (String.eqb (slug p) (slug currentPost_))) allPosts in
  (3 <= length sameCategory)%nat ->
  related currentPost_ allPosts = take 3 sameCategory /\
  length (related currentPost_ allPosts) = 3%nat /\
  (forall p, p ∈ related currentPost_ allPosts ->
             category p = category currentPost_) /\
  (NoDup allPosts -> NoDup (related currentPost_ allPosts)).
Proof.
  intros sc Hlen. rewrite related_cases. cbv zeta. fold sc.
  destruct (Nat.ltb_spec (length sc) 3); [lia |].
  split; [reflexivity |]. split; [rewrite length_take; lia |]. split.
  - intros p Hp. apply elem_of_take in Hp as (i & Hp & _).
    apply list_elem_of_lookup_2 in Hp. apply filter_elem_of in Hp as [_ Hf].
    apply andb_true_iff in Hf as [Hf _]. now apply String.eqb_eq.
  - intros Hnd. apply (sublist_NoDup _ sc); [| apply sublist_take].
    now apply filter_NoDup.
Qed.

(** The theorem on six posts, three of them recipes other than the current
    one. *)
Lemma related_enough_same_category_witness :
  (3 <= length (List.filter (fun p =>
          String.eqb (category p) (category recipeCurrent) &&
          negb (String.eqb (slug p) (slug recipeCurrent))) sixPosts))%nat /\
  related recipeCurrent sixPosts
  = [recipePasta; recipeSoup; indexPost "cake" "Recipes"].
Proof.
  assert (H : (3 <= 3)%nat) by lia.
  split; [exact H |].
  exact (proj1 (related_enough_same_category recipeCurrent sixPosts H)).
Defined.

Lemma relatedCards_visible (env : Env) (p : Post) (rest : list Post) :
  innerHTML (Js.join (map (relatedPostCard env) (p :: rest)))
  = [Html (Js.join (map (relatedPostCard env) (p :: rest)))].
Proof. cbn [map]. rewrite join_cons. reflexivity. Qed.

(** X8: [renderRelatedPosts] never throws.  It leaves the page as it is when
    an anchor of the section is missing or when the sequence holds no post
    other than the current one (the section stays hidden); otherwise it
    shows the section and fills its grid with one card per related post. *)
Theorem renderRelatedPosts_shows (env : Env) (currentPost_ : Post)
    (allPosts : list Post) (w : World) :
  (relatedPosts w = None \/ relatedPostsGrid w = None \/
   (forall p, p ∈ allPosts -> slug p = slug currentPost_) ->
   renderRelatedPosts env currentPost_ allPosts w = (Ok tt, w)) /\
  (forall display grid p,
     relatedPosts w = Some display -> relatedPostsGrid w = Some grid ->
     p ∈ allPosts -> slug p <> slug currentPost_ ->
     renderRelatedPosts env currentPost_ allPosts w
     = (Ok tt,
        set_related (Some "block")
          (Some [Html (Js.join (map (relatedPostCard env)
                                  (related currentPost_ allPosts)))]) w)).
Proof.
  split.
  - intros H. unfold renderRelatedPosts, bind, get.
    destruct (relatedPosts w) as [d |]; [| reflexivity].
    destruct (relatedPostsGrid w) as [g |]; [| reflexivity].
    destruct H as [H | [H | H]]; try discriminate H.
    apply (proj2 (proj2 (related_selection currentPost_ allPosts))) in H.
    now rewrite H.
  - intros display grid p Hd Hg Hp Hne. unfold renderRelatedPosts, bind, get.
    rewrite Hd, Hg.
    destruct (related currentPost_ allPosts) as [| r rest] eqn:E.
    + exfalso. apply Hne.
      now apply (proj1 (proj2 (proj2 (related_selection currentPost_ allPosts))) E).
    + rewrite relatedCards_visible.
      destruct (Z.eqb_spec (Z.of_nat (length (r :: rest))) 0) as [H0 | _];
        [cbn [length] in H0; lia | reflexivity].
Qed.

(** The theorem on the five sample posts. *)
Lemma renderRelatedPosts_shows_witness :
  relatedPosts (emptyPage []) = Some "none" /\
  relatedPostsGrid (emptyPage []) = Some [] /\
  recipePasta ∈ fivePosts /\ slug recipePasta <> slug recipeCurrent /\
  relatedPosts (renderRelatedPosts sampleEnv recipeCurrent fivePosts (emptyPage [])).2
  = Some "block".
Proof.
  assert (Hin : recipePasta ∈ fivePosts) by (right; left).
  assert (Hne : slug recipePasta <> slug recipeCurrent) by discriminate.
  split; [reflexivity |]. split; [reflexivity |]. split; [exact Hin |].
  split; [exact Hne |].
  rewrite (proj2 (renderRelatedPosts_shows sampleEnv recipeCurrent fivePosts
                    (emptyPage [])) "none" [] recipePasta eq_refl eq_refl Hin Hne).
  reflexivity.
Defined.

(** ** Carousel navigation, continued *)

Lemma classRemove_idempotent (token : string) (cl : list string) :
  Js.classRemove token (Js.classRemove token cl) = Js.classRemove token cl.
Proof.
  unfold Js.classRemove. induction cl as [| c cl IH]; [reflexivity |].
  cbn [List.filter]. destruct (negb (String.eqb c token)) eqn:E; [| exact IH].
  cbn [List.filter]. now rewrite E, IH.
Qed.

Lemma classRemove_classAdd (token : string) (cl : list string) :
  Js.classRemove token (Js.classAdd token (Js.classRemove token cl))
  = Js.classRemove token cl.
Proof.
  unfold Js.classAdd.
  destruct (existsb (String.eqb token) (Js.classRemove token cl)) eqn:E.
  - apply classRemove_idempotent.
  - unfold Js.classRemove at 1. rewrite List.filter_app. cbn [List.filter].
    rewrite String.eqb_refl. cbn [negb]. rewrite app_nil_r.
    apply classRemove_idempotent.
Qed.

Lemma remove_after_activate (l : list (list string)) (t : nat) :
  map (Js.classRemove "active")
    (alter (Js.classAdd "active") t (map (Js.classRemove "active") l))
  = map (Js.classRemove "active") l.
Proof.
  revert t. induction l as [| cl l IH]; intros [| t]; cbn [map alter list_alter];
    try reflexivity.
  - now rewrite classRemove_classAdd, map_map, (map_ext _ _ (classRemove_idempotent _)).
  - now rewrite classRemove_idempotent, IH.
Qed.

Lemma remove_after_remove (l : list (list string)) :
  map (Js.classRemove "active") (map (Js.classRemove "active") l)
  = map (Js.classRemove "active") l.
Proof. rewrite map_map. apply map_ext, classRemove_idempotent. Qed.

(** What a call of [goToSlide] leaves behind does not show in the call
    after it. *)
Lemma goToSlide_after (env : Env) (i k : Z) (w : World) :
  slides w <> [] ->
  goToSlide env k (goToSlide env i w).2 = goToSlide env k w.
Proof.
  intros Hne. rewrite (goToSlide_run env i w Hne). cbn [snd].
  match goal with |- goToSlide env k ?x = _ => set (w1 := x) end.
  assert (Hlen : length (slides w1) = length (slides w)).
  { subst w1. cbn [slides set_carousel]. now rewrite length_alter, length_map. }
  assert (Hne1 : slides w1 <> []).
  { intros E. rewrite E in Hlen. destruct (slides w); [congruence | discriminate]. }
  rewrite (goToSlide_run env k w1 Hne1), (goToSlide_run env k w Hne). rewrite Hlen.
  assert (Hs : map (Js.classRemove "active") (slides w1)
               = map (Js.classRemove "active") (slides w)).
  { subst w1. cbn [slides set_carousel]. apply remove_after_activate. }
  assert (Hd : map (Js.classRemove "active") (dots w1)
               = map (Js.classRemove "active") (dots w)).
  { subst w1. cbn [dots set_carousel].
    destruct (map (Js.classRemove "active") (dots w) !! _);
      [apply remove_after_activate | apply remove_after_remove]. }
  rewrite Hs, Hd. subst w1. now destruct w.
Qed.

(** X9: a call of [goToSlide] overrides the call before it: on a carousel
    that has slides, [goToSlide(j)] after [goToSlide(i)] leaves the page as
    [goToSlide(j)] alone does; in particular [goToSlide] is idempotent. *)
Theorem goToSlide_overrides (env : Env) (i j : Z) (w : World) :
  slides w <> [] ->
  goToSlide env j (goToSlide env i w).2 = goToSlide env j w /\
  goToSlide env i (goToSlide env i w).2 = goToSlide env i w.
Proof. intros Hne. split; now apply goToSlide_after. Qed.

(** The theorem on five slides. *)
Lemma goToSlide_overrides_witness :
  slides fiveSlides <> [] /\
  goToSlide sampleEnv 1 (goToSlide sampleEnv 3 fiveSlides).2
  = goToSlide sampleEnv 1 fiveSlides.
Proof.
  assert (Hne : slides fiveSlides <> []) by discriminate.
  split; [exact Hne |].
  exact (proj1 (goToSlide_overrides sampleEnv 3 1 fiveSlides Hne)).
Defined.

Lemma goToSlide_same_target (env : Env) (i j : Z) (w : World) :
  slides w <> [] ->
  wrapped (Z.of_nat (length (slides w))) i = wrapped (Z.of_nat (length (slides w))) j ->
  goToSlide env i w = goToSlide env j w.
Proof.
  intros Hne H. rewrite (goToSlide_run env i w Hne), (goToSlide_run env j w Hne).
  cbv zeta. now rewrite H.
Qed.

Lemma wrapped_cases (n i : Z) :
  (i < 0 /\ wrapped n i = n - 1) \/ (0 <= i /\ n <= i /\ wrapped n i = 0) \/
  (0 <= i < n /\ wrapped n i = i).
Proof. unfold wrapped. bool_arith. Qed.

(** X10: on a carousel whose current slide is one of its slides, the Next
    button followed by the Previous button, and the Previous button followed
    by the Next button, lead back to the current slide: the page is as after
    [goToSlide(currentSlide)]. *)
Theorem carousel_next_previous (env : Env) (w : World) :
  0 <= currentSlide w < Z.of_nat (length (slides w)) ->
  carouselPrevClick env (carouselNextClick env w).2 = goToSlide env (currentSlide w) w /\
  carouselNextClick env (carouselPrevClick env w).2 = goToSlide env (currentSlide w) w /\
  currentSlide (carouselPrevClick env (carouselNextClick env w).2).2 = currentSlide w.
Proof.
  intros Hc.
  assert (Hne : slides w <> []).
  { intros E. rewrite E in Hc. cbn in Hc. lia. }
  set (n := Z.of_nat (length (slides w))) in *.
  assert (Hstep : forall d, (d = 1 \/ d = -1) ->
            (let* w1 := get in goToSlide env (currentSlide w1 - d))
              (goToSlide env (currentSlide w + d) w).2
            = goToSlide env (currentSlide w) w).
  { intros d Hd. unfold bind at 1, get.
    rewrite (goToSlide_after env (currentSlide w + d) _ w Hne).
    apply goToSlide_same_target; [exact Hne |]. fold n.
    rewrite (goToSlide_run env (currentSlide w + d) w Hne).
    cbn [snd currentSlide set_carousel]. fold n.
    destruct Hd as [-> | ->].
    - destruct (wrapped_cases n (currentSlide w + 1)) as [[? E] | [(? & ? & E) | [? E]]];
        rewrite E;
        destruct (wrapped_cases n (currentSlide w)) as [[? F] | [(? & ? & F) | [? F]]];
        rewrite F; try lia;
        match goal with
        | |- wrapped n ?x = _ =>
            destruct (wrapped_cases n x) as [[? G] | [(? & ? & G) | [? G]]]; rewrite G; lia
        end.
    - destruct (wrapped_cases n (currentSlide w + -1)) as [[? E] | [(? & ? & E) | [? E]]];
        rewrite E;
        destruct (wrapped_cases n (currentSlide w)) as [[? F] | [(? & ? & F) | [? F]]];
        rewrite F; try lia;
        match goal with
        | |- wrapped n ?x = _ =>
            destruct (wrapped_cases n x) as [[? G] | [(? & ? & G) | [? G]]]; rewrite G; lia
        end. }
  assert (Hnext : carouselPrevClick env (carouselNextClick env w).2
                  = goToSlide env (currentSlide w) w).
  { change (carouselNextClick env w) with (goToSlide env (currentSlide w + 1) w).
    unfold carouselPrevClick. apply (Hstep 1). now left. }
  split; [exact Hnext |]. split.
  - change (carouselPrevClick env w) with (goToSlide env (currentSlide w - 1) w).
    pose proof (Hstep (-1) ltac:(now right)) as H.
    replace (currentSlide w + -1) with (currentSlide w - 1) in H by lia.
    unfold carouselNextClick, bind at 1, get.
    unfold bind at 1, get in H.
    replace (currentSlide (goToSlide env (currentSlide w - 1) w).2 + 1)
      with (currentSlide (goToSlide env (currentSlide w - 1) w).2 - -1) by lia.
    exact H.
  - rewrite Hnext, (goToSlide_run env (currentSlide w) w Hne).
    cbn [snd currentSlide set_carousel]. fold n.
    destruct (wrapped_cases n (currentSlide w)) as [[? F] | [(? & ? & F) | [? F]]];
      rewrite F; lia.
Qed.

(** The theorem on five slides, the first one current. *)
Lemma carousel_next_previous_witness :
  0 <= currentSlide fiveSlides < Z.of_nat (length (slides fiveSlides)) /\
  currentSlide (carouselPrevClick sampleEnv (carouselNextClick sampleEnv fiveSlides).2).2
  = 0.
Proof.
  assert (H : 0 <= currentSlide fiveSlides < Z.of_nat (length (slides fiveSlides)))
    by (cbn; lia).
  split; [exact H |].
  exact (proj2 (proj2 (carousel_next_previous sampleEnv fiveSlides H))).
Defined.

Lemma autoSlideTick_run (env : Env) (w : World) :
  0 <= currentSlide w < Z.of_nat (length (slides w)) ->
  exists w', autoSlideTick env w = (Ok tt, w') /\
             currentSlide w' = (currentSlide w + 1) mod Z.of_nat (length (slides w)) /\
             length (slides w') = length (slides w).
Proof.
  intros Hc.
  assert (Hne : slides w <> []).
  { intros E. rewrite E in Hc. cbn in Hc. lia. }
  unfold autoSlideTick, bind, get.
  rewrite (goToSlide_run env (currentSlide w + 1) w Hne).
  eexists. split; [reflexivity |]. cbn [currentSlide slides set_carousel].
  split; [| now rewrite length_alter, length_map].
  set (n := Z.of_nat (length (slides w))) in *.
  destruct (wrapped_cases n (currentSlide w + 1)) as [[? E] | [(? & ? & E) | [? E]]];
    rewrite E; [lia | |].
  - replace (currentSlide w + 1) with n by lia. now rewrite Z.mod_same by lia.
  - now rewrite Z.mod_small by lia.
Qed.

(** X11: the auto-slide timer walks through the slides in a cycle: from a
    current slide [c] among [n] slides, [k] turns of the interval end on
    slide [(c + k) mod n], so [n] turns lead back to [c]; no turn throws or
    changes the number of slides. *)
Theorem autoSlide_cycles (env : Env) (k : nat) (w : World) :
  let n := Z.of_nat (length (slides w)) in
  0 <= currentSlide w < n ->
  (exists w', autoSlideTicks env k w = (Ok tt, w') /\
              currentSlide w' = (currentSlide w + Z.of_nat k) mod n /\
              length (slides w') = length (slides w)) /\
  currentSlide (autoSlideTicks env (length (slides w)) w).2 = currentSlide w.
Proof.
  cbv zeta.
  assert (H : forall k w, 0 <= currentSlide w < Z.of_nat (length (slides w)) ->
            exists w', autoSlideTicks env k w = (Ok tt, w') /\
                       currentSlide w'
                       = (currentSlide w + Z.of_nat k) mod Z.of_nat (length (slides w)) /\
                       length (slides w') = length (slides w)).
  { clear k w. induction k as [| k IH]; intros w Hc.
    - exists w. split; [reflexivity |]. split; [| reflexivity].
      rewrite Z.add_0_r. now rewrite Z.mod_small by lia.
    - destruct (autoSlideTick_run env w Hc) as (w1 & Hrun & Hcur & Hlen).
      assert (Hc1 : 0 <= currentSlide w1 < Z.of_nat (length (slides w1))).
      { rewrite Hcur, Hlen. apply Z.mod_pos_bound. lia. }
      destruct (IH w1 Hc1) as (w' & Hrun' & Hcur' & Hlen').
      exists w'. cbn [autoSlideTicks]. unfold bind. rewrite Hrun.
      split; [exact Hrun' |]. split; [| congruence].
      rewrite Hcur', Hcur, Hlen.
      rewrite Zplus_mod_idemp_l. f_equal. lia. }
  intros Hc. split; [now apply H |].
  destruct (H (length (slides w)) w Hc) as (w' & Hrun & Hcur & _).
  rewrite Hrun. cbn [snd]. rewrite Hcur.
  rewrite <- (Z.mul_1_l (Z.of_nat (length (slides w)))) at 1.
  rewrite Z.mod_add by lia. now rewrite Z.mod_small by lia.
Qed.

(** The theorem on five slides: seven turns from slide 0 end on slide 2. *)
Lemma autoSlide_cycles_witness :
  0 <= currentSlide fiveSlides < Z.of_nat (length (slides fiveSlides)) /\
  currentSlide (autoSlideTicks sampleEnv 5 fiveSlides).2 = 0 /\
  exists w', autoSlideTicks sampleEnv 7 fiveSlides = (Ok tt, w') /\ currentSlide w' = 2.
Proof.
  assert (H : 0 <= currentSlide fiveSlides < Z.of_nat (length (slides fiveSlides)))
    by (cbn; lia).
  split; [exact H |]. split.
  - exact (proj2 (autoSlide_cycles sampleEnv 0 fiveSlides H)).
  - destruct (proj1 (autoSlide_cycles sampleEnv 7 fiveSlides H)) as (w' & Hrun & Hcur & _).
    exists w'. split; [exact Hrun | exact Hcur].
Defined.

(** ** The auto-slide timer *)

Lemma stopAutoSlide_ok (t : Timers) :
  timersOk t ->
  timersOk (stopAutoSlide t) /\ running (stopAutoSlide t) = [] /\
  carouselInterval (stopAutoSlide t) = None /\
  lastHandle (stopAutoSlide t) = lastHandle t.
Proof.
  destruct t as [[h |] run last]; unfold timersOk, stopAutoSlide;
    cbn [carouselInterval running lastHandle clearInterval];
    intros (Hrun & Hpos & Hlast).
  - specialize (Hpos h eq_refl).
    destruct (Z.eqb_spec h 0) as [-> | _]; [lia |].
    cbn [carouselInterval running lastHandle]. subst run.
    cbn [List.filter]. rewrite Z.eqb_refl. cbn [negb].
    repeat split; try reflexivity; try assumption; try discriminate.
  - repeat split; try reflexivity; try assumption; try discriminate.
Qed.

Lemma startAutoSlide_ok (t : Timers) :
  timersOk t ->
  timersOk (startAutoSlide t) /\
  running (startAutoSlide t) = [lastHandle t + 1] /\
  carouselInterval (startAutoSlide t) = Some (lastHandle t + 1).
Proof.
  intros Hok. destruct (stopAutoSlide_ok t Hok) as ((_ & _ & Hlast) & Hrun & Hci & Hl).
  unfold startAutoSlide. cbn [running carouselInterval lastHandle].
  rewrite Hrun, Hl. rewrite Hl in Hlast. cbn [app].
  split; [| split; reflexivity].
  split; [reflexivity |].
  split; [intros h [= <-] |]; cbn [lastHandle]; lia.
Qed.

(** X12: whatever the order of carousel renders, mouse entries and mouse
    leaves, at most one interval runs and it is the one [carouselInterval]
    holds: starting never leaves an older interval running.  After a mouse
    entry no interval runs; after a render or a mouse leave exactly one
    does. *)
Theorem autoSlide_single_timer (events : list TimerEvent) :
  let t := fold_left onTimerEvent events noTimers in
  timersOk t /\
  (length (running t) <= 1)%nat /\
  (forall before, events = before ++ [MouseEnter] ->
     running t = [] /\ carouselInterval t = None) /\
  (forall before e, events = before ++ [e] -> e <> MouseEnter ->
     exists h, running t = [h] /\ carouselInterval t = Some h).
Proof.
  cbv zeta.
  assert (Hok : forall evs t0, timersOk t0 -> timersOk (fold_left onTimerEvent evs t0)).
  { induction evs as [| e evs IH]; intros t0 H0; [exact H0 |].
    cbn [fold_left]. apply IH.
    destruct e; cbn [onTimerEvent];
      [apply startAutoSlide_ok | apply stopAutoSlide_ok | apply startAutoSlide_ok];
      exact H0. }
  assert (H0 : timersOk noTimers).
  { split; [reflexivity |]. split; [intros h [=] | reflexivity]. }
  pose proof (Hok events noTimers H0) as Ht.
  split; [exact Ht |]. split; [| split].
  - destruct Ht as (Hrun & _). rewrite Hrun.
    destruct (carouselInterval _); cbn [length]; lia.
  - intros before ->. rewrite fold_left_app. cbn [fold_left onTimerEvent].
    destruct (stopAutoSlide_ok _ (Hok before noTimers H0)) as (_ & Hr & Hc & _).
    now split.
  - intros before e -> He. rewrite fold_left_app. cbn [fold_left].
    destruct (startAutoSlide_ok _ (Hok before noTimers H0)) as (_ & Hr & Hc).
    destruct e; [| congruence |]; cbn [onTimerEvent]; eauto.
Qed.

(** ** Carousel selection *)

(** X13: whatever order the random sort produces, the carousel shows
    min(5, N) posts, each of them a post of the sequence, and none twice if
    the sequence holds none twice. *)
Theorem selectCarouselPosts_sample (shuffled posts : list Post) :
  shuffled ≡ₚ posts ->
  Z.of_nat (length (selectCarouselPosts shuffled posts))
    = Z.min 5 (Z.of_nat (length posts)) /\
  (forall p, p ∈ selectCarouselPosts shuffled posts -> p ∈ posts) /\
  (NoDup posts -> NoDup (selectCarouselPosts shuffled posts)).
Proof.
  intros Hperm. unfold selectCarouselPosts. rewrite slice_prefix by lia.
  pose proof (Permutation_length Hperm) as Hlen.
  split; [rewrite length_take; lia |]. split.
  - intros p Hp. apply elem_of_take in Hp as (i & Hp & _).
    apply list_elem_of_lookup_2 in Hp. now rewrite <- Hperm.
  - intros Hnd. apply (sublist_NoDup _ shuffled); [| apply sublist_take].
    now rewrite Hperm.
Qed.

(** The theorem on the six sample posts, reversed by the sort. *)
Lemma selectCarouselPosts_sample_witness :
  reverse sixPosts ≡ₚ sixPosts /\
  length (selectCarouselPosts (reverse sixPosts) sixPosts) = 5%nat.
Proof.
  assert (H : reverse sixPosts ≡ₚ sixPosts) by apply reverse_Permutation.
  split; [exact H |].
  pose proof (proj1 (selectCarouselPosts_sample (reverse sixPosts) sixPosts H)) as Hlen.
  cbn in Hlen |- *. lia.
Defined.

(** ** Pagination, continued *)

(** X14: every control of the pagination leads to a page that exists: with
    at least two pages and the current page among them, each control of the
    markup other than the ellipsis is a button whose click calls
    [changePage], and the argument of that call, in the Previous button, in
    each page-number button and in the Next button, is between 1 and the
    number of pages.  The ellipsis is a [span] that calls nothing. *)
Theorem pagination_targets_valid (cur total : Z) :
  2 <= total -> 1 <= cur <= total ->
  paginationHtml cur total
    = Js.join (map (controlHtml cur) (specControls cur total)) /\
  (forall c p, c ∈ specControls cur total -> controlTarget cur c = Some p ->
     1 <= p <= total /\
     controlHtml cur c
     = Js.lit "<button class=`" +:+ controlClass cur c +:+
       Js.lit "` onclick=`changePage(" +:+ Js.ofZ p +:+ Js.lit ")`>" +:+
       controlLabel c +:+ "</button>") /\
  (forall c, c ∈ specControls cur total -> controlTarget cur c = None ->
     controlHtml cur c = Js.lit "<span class=`page-dots`>...</span>").
Proof.
  intros Ht Hc. split; [now apply paginationHtml_controls |]. split.
  - intros c p Hin Htarget. split.
    + apply (specControls_elem cur total c Ht Hc) in Hin.
      destruct c as [| i | |]; cbn [controlTarget] in Htarget;
        try discriminate Htarget; injection Htarget as <-; lia.
    + unfold controlHtml. rewrite Htarget. reflexivity.
  - intros c _ Htarget. destruct c; try discriminate Htarget. reflexivity.
Qed.

(** The theorem at page 5 of 10. *)
Lemma pagination_targets_valid_witness :
  2 <= 10 /\ 1 <= 5 <= 10 /\
  forall c p, c ∈ specControls 5 10 -> controlTarget 5 c = Some p -> 1 <= p <= 10.
Proof.
  assert (H2 : 2 <= 10) by lia. assert (H1 : 1 <= 5 <= 10) by lia.
  split; [exact H2 |]. split; [exact H1 |].
  intros c p Hin Htarget.
  exact (proj1 (proj1 (proj2 (pagination_targets_valid 5 10 H2 H1)) c p Hin Htarget)).
Defined.

Lemma filter_map_PageNumber (l : list Z) :
  List.filter isPageNumber (map PageNumber l) = map PageNumber l /\
  List.filter isEllipsis (map PageNumber l) = [].
Proof.
  induction l as [| i l [IH1 IH2]]; [now split |].
  cbn [map List.filter isPageNumber isEllipsis]. now rewrite IH1, IH2.
Qed.

(** X15: the pagination stays small however many pages there are: at most
    five page-number buttons and at most two ellipses; the button of the
    current page is always among them, it is the button marked [active], and
    no other control of the markup is. *)
Theorem pagination_bounded (cur total : Z) :
  2 <= total -> 1 <= cur <= total ->
  paginationHtml cur total
    = Js.join (map (controlHtml cur) (specControls cur total)) /\
  (length (List.filter isPageNumber (specControls cur total)) <= 5)%nat /\
  (length (List.filter isEllipsis (specControls cur total)) <= 2)%nat /\
  PageNumber cur ∈ specControls cur total /\
  controlHtml cur (PageNumber cur)
  = Js.lit "<button class=`page-num active` onclick=`changePage(" +:+
    Js.ofZ cur +:+ Js.lit ")`>" +:+ Js.ofZ cur +:+ "</button>" /\
  (forall c, controlClass cur c = "page-num active" <-> c = PageNumber cur).
Proof.
  intros Ht Hc. split; [now apply paginationHtml_controls |].
  unfold specControls.
  rewrite <- (loopControls_spec cur total Ht Hc), (loopControls_closed cur total Ht Hc).
  set (lo := Z.max 2 (cur - 1)). set (hi := Z.min (total - 1) (cur + 1)).
  destruct (filter_map_PageNumber (seqZ lo (hi + 1 - lo))) as [Hp He].
  assert (Hm : (length (seqZ lo (hi + 1 - lo)) <= 3)%nat) by (rewrite length_seqZ; lia).
  split; [| split; [| split; [| split]]].
  - rewrite !List.filter_app, Hp, !length_app, length_map.
    destruct (cur =? 1); destruct (cur =? total); destruct (2 <? lo);
      destruct (hi + 1 <? total); cbn [List.filter isPageNumber length]; lia.
  - rewrite !List.filter_app, He, !length_app.
    destruct (cur =? 1); destruct (cur =? total); destruct (2 <? lo);
      destruct (hi + 1 <? total); cbn [List.filter isEllipsis length]; lia.
  - apply elem_of_app. right. apply elem_of_app. left.
    destruct (Z.eq_dec cur 1) as [-> | ?]; [left |].
    destruct (Z.eq_dec cur total) as [-> | ?].
    { rewrite !elem_of_app. right. right. right. right. left. }
    rewrite !elem_of_app. right. right. left.
    apply (list_elem_of_fmap_2 PageNumber). apply elem_of_seqZ. lia.
  - unfold controlHtml, controlTarget, controlClass, controlLabel.
    rewrite Z.eqb_refl. reflexivity.
  - intros c. split.
    + destruct c as [| i | |]; cbn [controlClass]; try discriminate.
      destruct (Z.eqb_spec i cur) as [-> | _]; [reflexivity | discriminate].
    + intros ->. cbn [controlClass]. now rewrite Z.eqb_refl.
Qed.

(** The theorem at page 50 of 100. *)
Lemma pagination_bounded_witness :
  2 <= 100 /\ 1 <= 50 <= 100 /\
  (length (List.filter isPageNumber (specControls 50 100)) <= 5)%nat.
Proof.
  assert (H2 : 2 <= 100) by lia. assert (H1 : 1 <= 50 <= 100) by lia.
  split; [exact H2 |]. split; [exact H1 |].
  exact (proj1 (proj2 (pagination_bounded 50 100 H2 H1))).
Defined.

(** ** The grid at its edges *)

Lemma renderPagedPosts_currentPage (env : Env) (page : Z) (w : World) (g : list Node) :
  postsGrid w = Some g ->
  postsData w <> [] ->
  currentPage (renderPagedPosts env page w).2 = page.
Proof.
  intros Hg Hne. unfold renderPagedPosts, bind at 1, get.
  destruct (Z.eqb_spec (Z.of_nat (length (postsData w))) 0) as [E | _].
  { destruct (postsData w); [congruence | simpl in E; lia]. }
  unfold bind at 1, modify at 1. unfold bind at 1.
  rewrite (renderPostsGrid_run env _ _ g) by now destruct w.
  match goal with
  | |- currentPage (bind ?m ?k ?w0).2 = _ =>
      assert (Hfr : preserves currentPage (bind m k));
      [ apply preserves_bind;
        [ unfold renderPaginationControls; frame
        | intros ?; destruct (page =? 1);
          [ unfold renderSidebar, renderCategories, renderRecentPosts; frame
          | apply preserves_ret ] ]
      | rewrite (Hfr w0) ]
  end.
  reflexivity.
Qed.

Lemma slice_page_zero {A} (l : list A) : Js.slice l (-8) 0 = [].
Proof.
  unfold Js.slice. cbn [Z.ltb Z.compare].
  replace (Z.to_nat (Z.min 0 (Z.of_nat (length l)) - Z.max (Z.of_nat (length l) + -8) 0))
    with 0%nat by lia.
  reflexivity.
Qed.

(** X16: [renderPagedPosts] does not check the page number.  With no posts
    it changes nothing at all.  With posts, a page number of 0 or beyond the
    last page empties the grid, and the number becomes the current page all
    the same. *)
Theorem renderPagedPosts_out_of_range (env : Env) (page : Z) (w : World) (g : list Node) :
  (postsData w = [] -> renderPagedPosts env page w = (Ok tt, w)) /\
  (postsGrid w = Some g -> postsData w <> [] ->
   page = 0 \/ Js.ceilDiv (Z.of_nat (length (postsData w))) 8 < page ->
   postsGrid (renderPagedPosts env page w).2 = Some [] /\
   currentPage (renderPagedPosts env page w).2 = page).
Proof.
  split.
  - intros E. unfold renderPagedPosts, bind, get. now rewrite E.
  - intros Hg Hne Hpage.
    split; [| now apply (renderPagedPosts_currentPage env page w g)].
    rewrite (renderPagedPosts_grid env page w g Hg Hne).
    destruct Hpage as [-> | Hbig].
    + change ((0 - 1) * 8) with (-8). change (-8 + 8) with 0.
      now rewrite slice_page_zero.
    + assert (HN : 0 <= Z.of_nat (length (postsData w))) by lia.
      pose proof (ceilDiv_8 _ HN page) as Hc.
      assert (Hge : Z.of_nat (length (postsData w)) <= (page - 1) * 8).
      { destruct (Z.le_gt_cases (Z.of_nat (length (postsData w))) ((page - 1) * 8));
          [assumption |]. apply Hc in H. lia. }
      assert (0 <= Js.ceilDiv (Z.of_nat (length (postsData w))) 8).
      { destruct (Z.le_gt_cases 0 (Js.ceilDiv (Z.of_nat (length (postsData w))) 8));
          [assumption |].
        pose proof (proj2 (ceilDiv_8 _ HN 0) ltac:(lia)). lia. }
      replace (page - 1) with (Z.of_nat (Z.to_nat (page - 1))) by lia.
      rewrite slice_chunk, drop_ge by lia. reflexivity.
Qed.

(** The theorem on ten posts: page 3 of 2 empties the grid. *)
Lemma renderPagedPosts_out_of_range_witness :
  postsGrid (emptyPage tenPosts) = Some [] /\ postsData (emptyPage tenPosts) <> [] /\
  Js.ceilDiv (Z.of_nat (length (postsData (emptyPage tenPosts)))) 8 < 3 /\
  postsGrid (renderPagedPosts sampleEnv 3 (emptyPage tenPosts)).2 = Some [] /\
  currentPage (renderPagedPosts sampleEnv 3 (emptyPage tenPosts)).2 = 3.
Proof.
  assert (Hne : postsData (emptyPage tenPosts) <> []) by discriminate.
  assert (Hlt : Js.ceilDiv (Z.of_nat (length (postsData (emptyPage tenPosts)))) 8 < 3)
    by reflexivity.
  split; [reflexivity |]. split; [exact Hne |]. split; [exact Hlt |].
  exact (proj2 (renderPagedPosts_out_of_range sampleEnv 3 (emptyPage tenPosts) [])
           eq_refl Hne (or_intror Hlt)).
Defined.

(** ** The post page: the paths that render no post *)

Lemma loadPostsData_frame (env : Env) :
  preserves (fun w => (postContent w, currentPost w)) (loadPostsData env).
Proof. unfold loadPostsData. frame. Qed.

Lemma loadPostsIndex_frame (env : Env) :
  preserves (fun w => (postContent w, currentPost w)) (loadPostsIndex env).
Proof.
  unfold loadPostsIndex.
  apply preserves_tryCatch; [| intros ?; apply loadPostsData_frame].
  destruct (fetch env (indexPath (cfg env))) as [e | [|] st [e | [| ps]]];
    cbn [negb]; try apply loadPostsData_frame; frame.
Qed.

Lemma renderSidebar_frame (env : Env) (posts : list Post) :
  preserves (fun w => (postContent w, currentPost w)) (renderSidebar env posts).
Proof. unfold renderSidebar, renderCategories, renderRecentPosts. frame. Qed.

Lemma renderRelatedPosts_frame (env : Env) (p : Post) (posts : list Post) :
  preserves (fun w => (postContent w, currentPost w)) (renderRelatedPosts env p posts).
Proof. unfold renderRelatedPosts. frame. Qed.

(** X17: on a page that is generated statically (a [.post-body] element or
    a preloaded post is there), [loadSinglePost] leaves the post container
    and [currentPost] as they are, whatever the network answers. *)
Theorem loadSinglePost_static (env : Env) (w : World) :
  postBodyPresent env = true \/ (exists p, preloadedPost env = Some p) ->
  postContent (loadSinglePost env w).2 = postContent w /\
  currentPost (loadSinglePost env w).2 = currentPost w.
Proof.
  intros Hstatic.
  assert (Hfr : preserves (fun w => (postContent w, currentPost w)) (loadSinglePost env)).
  { unfold loadSinglePost.
    assert (E : postBodyPresent env ||
                match preloadedPost env with Some _ => true | None => false end = true).
    { destruct Hstatic as [-> | [p ->]]; [reflexivity | apply orb_true_r]. }
    rewrite E. apply preserves_bind; [apply loadPostsIndex_frame | intros posts].
    apply preserves_bind; [apply renderSidebar_frame | intros ?].
    destruct (preloadedPost env); [apply renderRelatedPosts_frame | apply preserves_ret]. }
  specialize (Hfr w). cbv beta in Hfr. now injection Hfr.
Qed.

(** The theorem on a statically generated page. *)
Lemma loadSinglePost_static_witness :
  postBodyPresent staticEnv = true /\
  postContent (loadSinglePost staticEnv (emptyPage [])).2 = Some [].
Proof.
  split; [reflexivity |].
  exact (proj1 (loadSinglePost_static staticEnv (emptyPage [])
                  (or_introl (eq_refl true)))).
Defined.

(** X18: on a page that is not generated statically, a missing or empty
    [slug] parameter ends [loadSinglePost] at once: the error block [Post not
    found (No slug provided)] goes into the anchors that exist, and the
    dataset is not loaded ([postsData] stays as it is). *)
Theorem loadSinglePost_no_slug (env : Env) (w : World) :
  postBodyPresent env = false -> preloadedPost env = None ->
  slugParam env = None \/ slugParam env = Some "" ->
  loadSinglePost env w
  = (Ok tt,
     set_postContent
       (option_map (fun _ => [Html (errorBlock "Post not found (No slug provided)")])
          (postContent w))
       (set_postsGrid
          (option_map (fun _ => [Html (errorBlock "Post not found (No slug provided)")])
             (postsGrid w)) w)) /\
  postsData (loadSinglePost env w).2 = postsData w.
Proof.
  intros Hb Hp Hs.
  assert (E : loadSinglePost env w = showError "Post not found (No slug provided)" w).
  { unfold loadSinglePost. rewrite Hb, Hp. cbn [orb].
    destruct Hs as [-> | ->]; reflexivity. }
  rewrite E, showError_run. split; [reflexivity | now destruct w].
Qed.

(** The theorem on a page without a slug parameter. *)
Lemma loadSinglePost_no_slug_witness :
  postBodyPresent sampleEnv = false /\ preloadedPost sampleEnv = None /\
  slugParam sampleEnv = None /\
  postContent (loadSinglePost sampleEnv (emptyPage [])).2
  = Some [Html (errorBlock "Post not found (No slug provided)")].
Proof.
  split; [reflexivity |]. split; [reflexivity |]. split; [reflexivity |].
  rewrite (proj1 (loadSinglePost_no_slug sampleEnv (emptyPage [])
                    eq_refl eq_refl (or_introl eq_refl))).
  reflexivity.
Defined.

(** X19: on a page that is not generated statically, with a slug that no
    loaded post has, the post container ends with the error block [Post not
    found (Slug mismatch)] and [currentPost] is not set.  This is also what
    a failed load of the dataset ends in: the loader returns no posts, so
    the grid, where present, holds this block and not the block of the
    loader. *)
Theorem loadSinglePost_slug_mismatch (env : Env) (w : World) (slug_ : string)
    (old : list Node) :
  postBodyPresent env = false -> preloadedPost env = None ->
  slugParam env = Some slug_ -> slug_ <> "" ->
  postContent w = Some old ->
  List.find (fun p => String.eqb (slug p) slug_)
    (match payload (fetch env (dataPath (cfg env))) with
     | Some posts => default [] posts
     | None => []
     end) = None ->
  postContent (loadSinglePost env w).2
    = Some [Html (errorBlock "Post not found (Slug mismatch)")] /\
  postsGrid (loadSinglePost env w).2
    = option_map (fun _ => [Html (errorBlock "Post not found (Slug mismatch)")])
        (postsGrid w) /\
  currentPost (loadSinglePost env w).2 = currentPost w.
Proof.
  intros Hb Hp Hs Hne Hpc Hfind.
  assert (Hrun : exists w1,
            loadSinglePost env w = showError "Post not found (Slug mismatch)" w1 /\
            postContent w1 = postContent w /\ currentPost w1 = currentPost w /\
            (postsGrid w = None -> postsGrid w1 = None) /\
            (postsGrid w <> None -> postsGrid w1 <> None)).
  { unfold loadSinglePost. rewrite Hb, Hp, Hs. cbn [orb].
    destruct slug_ as [| ch rest]; [congruence |].
    unfold bind at 1.
    destruct (payload (fetch env (dataPath (cfg env)))) as [posts |] eqn:E.
    - rewrite (loadPostsData_ok env w posts E), Hfind.
      eexists. split; [reflexivity |]. now destruct w.
    - rewrite (loadPostsData_failed env w E). cbn [List.find].
      eexists. split; [reflexivity |].
      destruct w as [? ? ? ? ? ? [g |] ? ? ? ? ? ? ?]; cbn; repeat split; congruence. }
  destruct Hrun as (w1 & -> & Hc1 & Hcp1 & Hg0 & Hg1).
  rewrite showError_run. cbn [snd].
  split; [| split].
  - destruct w1; cbn in *. now rewrite Hc1, Hpc.
  - destruct (postsGrid w) as [g |] eqn:Eg.
    + destruct w1 as [? ? ? ? ? ? [g1 |] ? ? ? ? ? ? ?]; cbn in *;
        [reflexivity | exfalso; now apply Hg1].
    + destruct w1; cbn in *. now rewrite Hg0.
  - destruct w1; cbn in *. exact Hcp1.
Qed.

(** The theorem with the network down. *)
Lemma loadSinglePost_slug_mismatch_witness :
  payload (fetch offlineEnv (dataPath (cfg offlineEnv))) = None /\
  postContent (loadSinglePost offlineEnv (emptyPage [])).2
  = Some [Html (errorBlock "Post not found (Slug mismatch)")].
Proof.
  split; [reflexivity |].
  refine (proj1 (loadSinglePost_slug_mismatch offlineEnv (emptyPage []) "bread" []
                   eq_refl eq_refl eq_refl _ eq_refl eq_refl)).
  discriminate.
Defined.

(** ** The sidebar *)

Lemma existsb_eqb_elem (x : string) (l : list string) :
  existsb (String.eqb x) l = true <-> x ∈ l.
Proof.
  rewrite existsb_exists, list_elem_of_In. split.
  - intros (y & Hy & E). apply String.eqb_eq in E. now subst.
  - intros H. exists x. split; [exact H | apply String.eqb_refl].
Qed.

Lemma uniqFrom_spec (seen l : list string) :
  NoDup (Js.uniqFrom seen l) /\
  forall x, x ∈ Js.uniqFrom seen l <-> x ∈ l /\ x ∉ seen.
Proof.
  revert seen. induction l as [| y l IH]; intros seen; cbn [Js.uniqFrom].
  - split; [constructor |]. intros x. split; [intros H; inversion H | intros [H _]; inversion H].
  - destruct (existsb (String.eqb y) seen) eqn:E.
    + apply existsb_eqb_elem in E. destruct (IH seen) as [Hnd Hin].
      split; [exact Hnd |]. intros x. rewrite Hin, elem_of_cons.
      split; [tauto |]. intros [[-> | H] Hs]; [contradiction | tauto].
    + assert (Hy : y ∉ seen).
      { intros H. apply existsb_eqb_elem in H. congruence. }
      destruct (IH (y :: seen)) as [Hnd Hin]. split.
      * constructor; [| exact Hnd]. rewrite Hin, elem_of_cons. tauto.
      * intros x. rewrite !elem_of_cons, Hin, elem_of_cons.
        destruct (decide (x = y)) as [-> | Hne]; tauto.
Qed.

Lemma indicator_sum (x : string) (cats : list string) :
  NoDup cats -> x ∈ cats ->
  foldr Z.add 0 (map (fun c => if String.eqb x c then 1 else 0) cats) = 1.
Proof.
  induction 1 as [| c cats Hc Hnd IH]; [intros H; inversion H |].
  intros Hin. cbn [map foldr]. destruct (String.eqb_spec x c) as [-> | Hne].
  - assert (E : foldr Z.add 0 (map (fun c0 => if String.eqb c c0 then 1 else 0) cats) = 0).
    { clear IH Hnd Hin. induction cats as [| d cats IH]; [reflexivity |].
      cbn [map foldr]. destruct (String.eqb_spec c d) as [-> | _].
      - exfalso. apply Hc. left.
      - rewrite IH; [reflexivity |]. intros H. apply Hc. now right. }
    rewrite E. reflexivity.
  - apply elem_of_cons in Hin as [-> | Hin]; [congruence |]. now rewrite IH.
Qed.

Lemma category_counts_sum (posts : list Post) (cats : list string) :
  NoDup cats -> (forall p, p ∈ posts -> category p ∈ cats) ->
  foldr Z.add 0 (map (categoryCount posts) cats) = Z.of_nat (length posts).
Proof.
  intros Hnd. induction posts as [| p posts IH]; intros Hall.
  - unfold categoryCount. cbn [List.filter length Z.of_nat].
    clear. induction cats as [| c cats IH]; [reflexivity |]. cbn [map foldr]. now rewrite IH.
  - assert (E : forall l,
              foldr Z.add 0 (map (categoryCount (p :: posts)) l)
              = foldr Z.add 0 (map (fun c => if String.eqb (category p) c then 1 else 0) l)
                + foldr Z.add 0 (map (categoryCount posts) l)).
    { induction l as [| c l IHl]; [reflexivity |]. cbn [map foldr]. rewrite IHl.
      unfold categoryCount at 1 3. cbn [List.filter].
      destruct (String.eqb (category p) c); cbn [length]; lia. }
    rewrite E, IH by (intros q Hq; apply Hall; now right).
    rewrite indicator_sum; [cbn [length]; lia | exact Hnd | apply Hall; left].
Qed.

Lemma forEach_append_recentPosts {A} (f : A -> Node) (l : list A) (w : World)
    (g : list Node) :
  recentPosts w = Some g ->
  forEach l (fun x =>
      modify (fun w => set_recentPosts
                (option_map (fun c => c ++ [f x]) (recentPosts w)) w)) w
  = (Ok tt, set_recentPosts (Some (g ++ map f l)) w).
Proof.
  revert w g. induction l as [| x l IH]; intros w g Hg; cbn [forEach map].
  - unfold ret. rewrite app_nil_r, <- Hg. now destruct w.
  - unfold bind, modify at 1.
    rewrite (IH _ (g ++ [f x])).
    + rewrite <- app_assoc. now destruct w.
    + rewrite Hg. now destruct w.
Qed.

(** X20: on a page that has the category list, [renderCategories] replaces
    its content by one item per distinct category, in the order in which
    the categories first occur; each item ends with the encoded name and,
    in brackets, the number of posts of the category; and the numbers shown
    add up to the number of posts. *)
Theorem renderCategories_counts (env : Env) (posts : list Post) (w : World)
    (old : list Node) :
  categoryList w = Some old ->
  let categories := Js.uniq (map category posts) in
  exists items,
    renderCategories env posts w = (Ok tt, set_categoryList (Some items) w) /\
    Forall2 (fun c item =>
               exists before,
                 nodeHtml item
                 = before +:+ escapeHtml (Some c) +:+ " (" +:+
                   Js.ofZ (categoryCount posts c) +:+ ")</a>")
            categories items /\
    NoDup categories /\
    (forall c, c ∈ categories <-> exists p, p ∈ posts /\ category p = c) /\
    foldr Z.add 0 (map (categoryCount posts) categories) = Z.of_nat (length posts).
Proof.
  intros Hc categories.
  destruct (uniqFrom_spec [] (map category posts)) as [Hnd Hin].
  fold (Js.uniq (map category posts)) in Hnd, Hin. fold categories in Hnd, Hin.
  assert (Hmem : forall c, c ∈ categories <-> exists p, p ∈ posts /\ category p = c).
  { intros c. rewrite Hin. split.
    - intros [H _]. apply list_elem_of_fmap in H as (p & -> & Hp). eauto.
    - intros (p & Hp & <-). split; [now apply list_elem_of_fmap_2 | apply not_elem_of_nil]. }
  eexists. split; [| split; [| split; [exact Hnd | split; [exact Hmem |]]]].
  - unfold renderCategories, bind at 1, get. rewrite Hc.
    unfold bind, modify at 1. cbv zeta. fold categories.
    rewrite (forEach_append_categoryList _ categories _ []) by now destruct w.
    cbn [app]. reflexivity.
  - clear. induction categories as [| c cats IH]; cbn [map]; constructor; [| exact IH].
    cbn [nodeHtml]. unfold categoryCount. eexists.
    rewrite <- !string_app_assoc. reflexivity.
  - apply category_counts_sum; [exact Hnd |].
    intros p Hp. apply Hmem. eauto.
Qed.

(** The theorem on the six sample posts: Recipes (4) and Travel (2). *)
Lemma renderCategories_counts_witness :
  categoryList (emptyPage []) = Some [] /\
  Js.uniq (map category sixPosts) = ["Recipes"; "Travel"] /\
  map (categoryCount sixPosts) (Js.uniq (map category sixPosts)) = [4; 2] /\
  exists items,
    renderCategories sampleEnv sixPosts (emptyPage [])
    = (Ok tt, set_categoryList (Some items) (emptyPage [])) /\ length items = 2%nat.
Proof.
  split; [reflexivity |]. split; [reflexivity |]. split; [reflexivity |].
  destruct (renderCategories_counts sampleEnv sixPosts (emptyPage []) [] eq_refl)
    as (items & Hrun & Hitems & _).
  exists items. split; [exact Hrun |].
  apply Forall2_length in Hitems. rewrite <- Hitems. reflexivity.
Defined.

(** X21: on a page that has the recent-posts list, and with a sort that
    returns the posts it was given in some order, [renderRecentPosts]
    replaces the content of the list by the items of the first min(5, N)
    posts of the sorted sequence, each of them a post of the sequence. *)
Theorem renderRecentPosts_five (env : Env) (posts : list Post) (w : World)
    (old : list Node) :
  recentPosts w = Some old ->
  sortNewestFirst env posts ≡ₚ posts ->
  let shown := take 5 (sortNewestFirst env posts) in
  renderRecentPosts env posts w
  = (Ok tt, set_recentPosts (Some (map (recentPostItem env) shown)) w) /\
  Z.of_nat (length shown) = Z.min 5 (Z.of_nat (length posts)) /\
  (forall p, p ∈ shown -> p ∈ posts).
Proof.
  intros Hr Hperm shown. split; [| split].
  - unfold renderRecentPosts, bind at 1, get. rewrite Hr.
    unfold bind, modify at 1. cbv zeta.
    rewrite slice_prefix by lia. change (Z.to_nat 5) with 5%nat. fold shown.
    rewrite (forEach_append_recentPosts _ shown _ []) by now destruct w.
    cbn [app]. reflexivity.
  - unfold shown. rewrite length_take, (Permutation_length Hperm). lia.
  - intros p Hp. apply elem_of_take in Hp as (i & Hp & _).
    apply list_elem_of_lookup_2 in Hp. now rewrite <- Hperm.
Qed.

(** The theorem on the six sample posts. *)
Lemma renderRecentPosts_five_witness :
  recentPosts (emptyPage []) = Some [] /\
  sortNewestFirst sampleEnv sixPosts ≡ₚ sixPosts /\
  recentPosts (renderRecentPosts sampleEnv sixPosts (emptyPage [])).2
  = Some (map (recentPostItem sampleEnv) (take 5 sixPosts)).
Proof.
  assert (Hperm : sortNewestFirst sampleEnv sixPosts ≡ₚ sixPosts) by reflexivity.
  split; [reflexivity |]. split; [exact Hperm |].
  rewrite (proj1 (renderRecentPosts_five sampleEnv sixPosts (emptyPage []) []
                    eq_refl Hperm)).
  reflexivity.
Defined.

(** ** Truncation at any length *)

(** X22: for every maximal length, negative ones included, [truncateText]
    returns a text only for a text; a text of at most max(0, maxLength)
    characters is returned unchanged, and the result is never more than
    three characters longer than the shorter of the text and the maximum. *)
Theorem truncateText_bound (text : option string) (maxLength : Z) (out : string) :
  truncateText text maxLength = Some out ->
  exists t, text = Some t /\
    (Js.length t <= Z.max 0 maxLength -> out = t) /\
    Js.length out <= Z.min (Js.length t) (Z.max 0 maxLength) + 3.
Proof.
  unfold truncateText. destruct text as [t |]; [| discriminate].
  intros H. exists t. split; [reflexivity |].
  destruct t as [| c t].
  - cbn [Js.truthy negb orb] in H. injection H as <-.
    split; [reflexivity |]. unfold Js.length. cbn [String.length]. lia.
  - cbn [Js.truthy negb orb] in H.
    destruct (Z.leb_spec (Js.length (String c t)) maxLength) as [Hle | Hgt].
    + injection H as <-. split; [reflexivity | lia].
    + injection H as <-. split.
      * unfold Js.length in *. cbn [String.length] in *. lia.
      * unfold Js.length in *. rewrite string_app_length.
        pose proof (trim_length (Js.substring (String c t) 0 maxLength)) as Ht.
        unfold Js.substring, Js.clamp, Js.length in Ht.
        match type of Ht with
        | (_ <= String.length (String.substring ?n ?m ?s))%nat =>
            pose proof (substring_length_le s n m) as Hs
        end.
        change (String.length "...") with 3%nat.
        unfold Js.substring, Js.clamp, Js.length. lia.
Qed.

(** The theorem at a text of six characters cut at four. *)
Lemma truncateText_bound_witness :
  truncateText (Some "ab  cd") 4 = Some "ab..." /\
  exists t, Some "ab  cd" = Some t /\
    (Js.length t <= Z.max 0 4 -> "ab..." = t) /\
    Js.length "ab..." <= Z.min (Js.length t) (Z.max 0 4) + 3.
Proof.
  split; [reflexivity |].
  exact (truncateText_bound (Some "ab  cd") 4 "ab..." eq_refl).
Defined.
